(** * Match notification handlers: lost-item owners are e-mailed when a
      found item of the same category is reported.

    Two Supabase edge functions are embedded side by side:

    - [NotifyLostOnFound]: supabase/functions/notify-lost-on-found/index.ts,
      the found item arrives inline in the request body;
    - [NotifyMatches]: the notify-matches function, the found item is looked
      up by identifier.

    External collaborators (item store, account service, e-mail provider,
    process environment) are oracles gathered in a [World] record; the
    handlers are pure functions of the world and the request, returning the
    HTTP outcome together with the trace of outbound calls. *)

From Stdlib Require Import List NArith Bool String Ascii Lia Arith Permutation.
Import ListNotations.

Set Implicit Arguments.

(* ================================================================= *)
(** ** JavaScript strings *)

(** A JS string is a sequence of UTF-16 code units. *)
Definition jsstring := list N.

(** ASCII literals. *)
Fixpoint js (s : string) : jsstring :=
  match s with
  | EmptyString => []
  | String c r => N_of_ascii c :: js r
  end.

Definition jseqb (a b : jsstring) : bool :=
  if list_eq_dec N.eq_dec a b then true else false.

(** [if (s)] on a string: only the empty string is falsy. *)
Definition truthy (s : jsstring) : bool :=
  match s with [] => false | _ :: _ => true end.

(** [if (v)] on [string | null | undefined]. *)
Definition truthyOpt (v : option jsstring) : bool :=
  match v with Some s => truthy s | None => false end.

(** The string held by a value already tested truthy. *)
Definition stringOf (v : option jsstring) : jsstring :=
  match v with Some s => s | None => [] end.

(** ECMAScript WhiteSpace and LineTerminator code units: what [\s] matches
    and what [String.prototype.trim] strips. *)
Definition isWhite (c : N) : bool :=
  ((9 <=? c) && (c <=? 13) || (c =? 32) || (c =? 160) || (c =? 5760)
   || (8192 <=? c) && (c <=? 8202) || (c =? 8232) || (c =? 8233)
   || (c =? 8239) || (c =? 8287) || (c =? 12288) || (c =? 65279))%N.

Fixpoint trimStart (s : jsstring) : jsstring :=
  match s with
  | [] => []
  | c :: r => if isWhite c then trimStart r else s
  end.

Definition trimEnd (s : jsstring) : jsstring := rev (trimStart (rev s)).

Definition trim (s : jsstring) : jsstring := trimEnd (trimStart s).

Fixpoint startsWith (needle s : jsstring) : bool :=
  match needle, s with
  | [], _ => true
  | _ :: _, [] => false
  | a :: n', b :: s' => (a =? b)%N && startsWith n' s'
  end.

(** [s.includes(needle)]. *)
Fixpoint includes (needle s : jsstring) : bool :=
  startsWith needle s ||
  match s with
  | [] => false
  | _ :: r => includes needle r
  end.

Definition AT : N := 64.   (* "@" *)
Definition DOT : N := 46.  (* "." *)

(* ================================================================= *)
(** ** Regular expressions (the fragment [RegExp.prototype.test] needs) *)

Inductive regex : Type :=
| RNone
| REps
| RClass (p : N -> bool)
| RSeq (r s : regex)
| RAlt (r s : regex)
| RStar (r : regex).

Definition RPlus (r : regex) : regex := RSeq r (RStar r).
Definition RChar (c : N) : regex := RClass (N.eqb c).

Fixpoint nullable (r : regex) : bool :=
  match r with
  | RNone => false
  | REps => true
  | RClass _ => false
  | RSeq r s => nullable r && nullable s
  | RAlt r s => nullable r || nullable s
  | RStar _ => true
  end.

Fixpoint deriv (c : N) (r : regex) : regex :=
  match r with
  | RNone => RNone
  | REps => RNone
  | RClass p => if p c then REps else RNone
  | RSeq r s =>
      if nullable r then RAlt (RSeq (deriv c r) s) (deriv c s)
      else RSeq (deriv c r) s
  | RAlt r s => RAlt (deriv c r) (deriv c s)
  | RStar r => RSeq (deriv c r) (RStar r)
  end.

(** [/^r$/.test(s)]: the whole string belongs to the language of [r]. *)
Fixpoint regexTest (r : regex) (s : jsstring) : bool :=
  match s with
  | [] => nullable r
  | c :: s' => regexTest (deriv c r) s'
  end.

(** Language of a regular expression. *)
Inductive Matches : regex -> jsstring -> Prop :=
| MEps : Matches REps []
| MClass p c : p c = true -> Matches (RClass p) [c]
| MSeq r s u v : Matches r u -> Matches s v -> Matches (RSeq r s) (u ++ v)
| MAltL r s u : Matches r u -> Matches (RAlt r s) u
| MAltR r s u : Matches s u -> Matches (RAlt r s) u
| MStarNil r : Matches (RStar r) []
| MStarApp r u v :
    Matches r u -> Matches (RStar r) v -> Matches (RStar r) (u ++ v).

(** The character class [[^\s@]]. *)
Definition notSpaceAt (c : N) : bool := negb (isWhite c) && negb (c =? AT)%N.

(** [/^[^\s@]+@[^\s@]+\.[^\s@]+$/] *)
Definition emailRegex : regex :=
  RSeq (RPlus (RClass notSpaceAt))
    (RSeq (RChar AT)
       (RSeq (RPlus (RClass notSpaceAt))
          (RSeq (RChar DOT) (RPlus (RClass notSpaceAt))))).

(** notify-lost-on-found/index.ts, [isEmail]. *)
Definition isEmail (value : option jsstring) : bool :=
  match value with
  | None => false
  | Some v => if negb (truthy v) then false else regexTest emailRegex (trim v)
  end.

(* ================================================================= *)
(** ** [Set<string>] in insertion order *)

Definition setHas (x : jsstring) (s : list jsstring) : bool :=
  existsb (jseqb x) s.

(** [s.add(x)]: a value already present keeps its position. *)
Definition setAdd (x : jsstring) (s : list jsstring) : list jsstring :=
  if setHas x s then s else s ++ [x].

(* ================================================================= *)
(** ** Requests, responses and external collaborators *)

(** Columns selected by the lost-item query of both functions. *)
Record LostItemRow : Type := {
  li_id : jsstring;
  li_title : jsstring;
  li_contact_info : option jsstring;
  li_user_id : jsstring
}.

(** [FoundItemPayload] of index.ts; a field absent from the JSON behaves as
    the empty string in every test the handler makes on [category] and
    [user_id]. *)
Record FoundItemPayload : Type := {
  fp_id : jsstring;
  fp_user_id : jsstring;
  fp_category : jsstring;
  fp_title : jsstring;
  fp_description : option jsstring;
  fp_location : option jsstring
}.

(** Columns selected by the found-item query of notify-matches; a [null]
    [user_id] or [title] behaves as the empty string in the tests the
    handler makes on them. *)
Record FoundItemRow : Type := {
  fr_id : jsstring;
  fr_title : jsstring;
  fr_description : option jsstring;
  fr_category : jsstring;
  fr_location : option jsstring;
  fr_user_id : jsstring;
  fr_created_at : jsstring
}.

(** Result of [req.json()]: a rejected parse, the JSON value [null], or a
    value whose two properties of interest are read (a non-object JSON value
    has neither). *)
Inductive JsonBody : Type :=
| BodyInvalid
| BodyNull
| BodyObject (foundItem : option FoundItemPayload)
             (foundItemId : option jsstring).

Record Request : Type := {
  method : jsstring;
  body : JsonBody
}.

(** [{ data, error }] of a store query. *)
Inductive QueryResult (A : Type) : Type :=
| QError (message : jsstring)
| QData (data : option A).
Arguments QError {A} message.
Arguments QData {A} data.

(** [auth.admin.getUserById]: the promise rejects, or resolves to an error
    result, which the client library builds as
    [{ data: { user: null }, error }], or to [{ data: { user }, error: null }]
    (the user, or its e-mail, may be missing). *)
Inductive LookupResult : Type :=
| LookupThrows
| LookupError
| LookupUser (email : option jsstring).

Inductive TextResult : Type :=
| TextOk (text : jsstring)
| TextFails (message : jsstring).

(** [fetch]: the promise rejects with an error, or resolves to a response
    with its [ok] flag and the result of reading its text. *)
Inductive FetchResult : Type :=
| FetchThrows (message : jsstring)
| FetchResponse (ok : bool) (text : TextResult).

(** A POST to https://api.resend.com/emails. *)
Record SendRequest : Type := {
  sr_authorization : jsstring;
  sr_from : jsstring;
  sr_to : jsstring;
  sr_subject : jsstring;
  sr_html : jsstring
}.

(** The world a request runs in.  [selectLost c u] is the query
    [from("items").select(..).eq("type","lost").eq("status","active")
    .eq("category", c)], with [.neq("user_id", x)] appended when [u = Some x];
    [selectFoundById i] is [..eq("id", i).single()].  The account service
    and the e-mail provider take the number of calls already made to them
    in this request, so successive calls may answer differently. *)
Record World : Type := {
  SUPABASE_URL : option jsstring;
  SUPABASE_SERVICE_ROLE_KEY : option jsstring;
  RESEND_API_KEY : option jsstring;
  FROM_EMAIL : option jsstring;
  RESEND_FROM : option jsstring;
  selectLost : jsstring -> option jsstring -> QueryResult (list LostItemRow);
  selectFoundById : jsstring -> QueryResult FoundItemRow;
  getUserById : nat -> jsstring -> LookupResult;
  fetch : nat -> SendRequest -> FetchResult
}.

Record Delivery : Type := {
  d_to : jsstring;
  d_ok : bool;
  d_detail : option jsstring
}.

Record Failure : Type := {
  f_to : jsstring;
  f_error : jsstring
}.

(** Response bodies, before [JSON.stringify]. *)
Inductive Body : Type :=
| BText (text : jsstring)
| BError (error : jsstring) (details : option jsstring)
| BNoRecipients (message : jsstring) (recipients : list jsstring)
| BNotConfigured (message : jsstring) (wouldNotify : list jsstring)
                 (subject : jsstring)
| BResults (successes : list jsstring) (failures : list Delivery)
| BSummary (category : jsstring) (recipients : nat) (sent : nat)
           (failures : list Failure).

Record Response : Type := {
  status : nat;
  rbody : Body
}.

(** What the runtime gets back from the handler: a response, or a rejected
    promise. *)
Inductive Outcome : Type :=
| Responded (r : Response)
| Rejected.

(** Outbound calls made while serving a request, in call order. *)
Record Trace : Type := {
  lookups : list jsstring;
  sends : list SendRequest
}.

Definition noCalls : Trace := {| lookups := []; sends := [] |}.

Definition respond (st : nat) (b : Body) : Response :=
  {| status := st; rbody := b |}.

Definition errorBody (m : string) : Body := BError (js m) None.

Definition rowsOf (A : Type) (data : option (list A)) : list A :=
  match data with Some l => l | None => [] end.

Definition QUOTE : jsstring := [34%N].
Definition NL : jsstring := [10%N].

Definition spaces (n : nat) : jsstring := repeat 32%N n.

(** One line of a template literal: indentation, content, line feed. *)
Definition line (indent : nat) (content : jsstring) : jsstring :=
  spaces indent ++ content ++ NL.

(* ================================================================= *)
(** ** notify-lost-on-found (index.ts): inline found-item payload *)

Module NotifyLostOnFound.

Definition subjectOf (found : FoundItemPayload) : jsstring :=
  js "New found item in " ++ fp_category found
  ++ js " may match your lost item".

Definition optionalItem (label : string) (v : option jsstring) : jsstring :=
  match v with
  | Some s =>
      if truthy s
      then js "<li><strong>" ++ js label ++ js ":</strong> " ++ s ++ js "</li>"
      else []
  | None => []
  end.

Definition htmlOf (found : FoundItemPayload) : jsstring :=
  NL
  ++ line 4 (js "<div style=" ++ QUOTE
             ++ js "font-family: Arial, sans-serif; line-height:1.5;"
             ++ QUOTE ++ js ">")
  ++ line 6 (js "<h2>Possible match for your lost item</h2>")
  ++ line 6 (js "<p>Someone just reported a <strong>found</strong> item in the <strong>"
             ++ fp_category found ++ js "</strong> category.</p>")
  ++ line 6 (js "<ul>")
  ++ line 8 (js "<li><strong>Title:</strong> " ++ fp_title found ++ js "</li>")
  ++ line 8 (optionalItem "Description" (fp_description found))
  ++ line 8 (optionalItem "Location" (fp_location found))
  ++ line 6 (js "</ul>")
  ++ line 6 (js "<p>Visit the app to review details and contact the finder.</p>")
  ++ line 4 (js "</div>")
  ++ spaces 2.

Definition composeEmail (found : FoundItemPayload) : jsstring * jsstring :=
  (subjectOf found, htmlOf found).

(** Early returns of the handler up to and including the lost-item query;
    otherwise the validated found item and the rows the query returned. *)
Definition validate (w : World) (req : Request)
  : Response + (FoundItemPayload * list LostItemRow) :=
  if jseqb (method req) (js "OPTIONS") then inl (respond 200 (BText (js "ok")))
  else if negb (jseqb (method req) (js "POST"))
  then inl (respond 405 (BText (js "Method Not Allowed")))
  else
    match body req with
    | BodyInvalid => inl (respond 400 (errorBody "Invalid JSON body"))
    | BodyNull | BodyObject None _ =>
        inl (respond 400 (errorBody "Missing required foundItem payload"))
    | BodyObject (Some found) _ =>
        if negb (truthy (fp_category found)) || negb (truthy (fp_user_id found))
        then inl (respond 400 (errorBody "Missing required foundItem payload"))
        else if negb (truthyOpt (SUPABASE_URL w))
                || negb (truthyOpt (SUPABASE_SERVICE_ROLE_KEY w))
        then inl (respond 500 (errorBody "Server missing Supabase configuration"))
        else
          match selectLost w (fp_category found) None with
          | QError m =>
              inl (respond 500 (BError (js "Failed querying lost items") (Some m)))
          | QData lostItems => inr (found, rowsOf lostItems)
          end
    end.

(** Body of the first loop; the state is [(recipients, missingEmailUserIds)]. *)
Definition classify (found : FoundItemPayload)
    (st : list jsstring * list jsstring) (item : LostItemRow)
  : list jsstring * list jsstring :=
  let '(recipients, missingEmailUserIds) := st in
  if jseqb (li_user_id item) (fp_user_id found) then st
  else if isEmail (li_contact_info item)
  then (setAdd (trim (stringOf (li_contact_info item))) recipients,
        missingEmailUserIds)
  else (recipients, setAdd (li_user_id item) missingEmailUserIds).

Definition collect (found : FoundItemPayload) (lostItems : list LostItemRow)
  : list jsstring * list jsstring :=
  fold_left (classify found) lostItems ([], []).

(** What one answer of the account service adds to the recipients. *)
Definition addLookup (r : LookupResult) (recipients : list jsstring)
  : list jsstring :=
  match r with
  | LookupUser (Some email) =>
      if truthy email then setAdd email recipients else recipients
  | LookupUser None => recipients
  | LookupError => recipients
  | LookupThrows => recipients          (* catch (_) { } *)
  end.

(** Second loop; [calls] lists the lookups made so far. *)
Fixpoint lookupAll (w : World) (uids : list jsstring)
    (recipients calls : list jsstring) : list jsstring * list jsstring :=
  match uids with
  | [] => (recipients, calls)
  | uid :: rest =>
      lookupAll w rest
        (addLookup (getUserById w (List.length calls) uid) recipients)
        (calls ++ [uid])
  end.

(** [toList] and the account lookups made to obtain it. *)
Definition resolve (w : World) (found : FoundItemPayload)
    (lostItems : list LostItemRow) : list jsstring * list jsstring :=
  let '(recipients, missingEmailUserIds) := collect found lostItems in
  lookupAll w missingEmailUserIds recipients [].

Definition mkSend (key from subject html to : jsstring) : SendRequest :=
  {| sr_authorization := js "Bearer " ++ key;
     sr_from := from; sr_to := to; sr_subject := subject; sr_html := html |}.

(** One callback of [toList.map(async (to) => ..)] once its fetch settled:
    [None] when the callback's promise rejects. *)
Definition settle (to : jsstring) (r : FetchResult) : option Delivery :=
  match r with
  | FetchThrows _ => None
  | FetchResponse ok text =>
      Some {| d_to := to; d_ok := ok;
              d_detail := if ok then None
                          else match text with
                               | TextOk t => Some t
                               | TextFails _ => None   (* .catch(() => undefined) *)
                               end |}
  end.

(** [Promise.all]: every result, or rejection as soon as one promise rejects. *)
Fixpoint promiseAll (A : Type) (ps : list (option A)) : option (list A) :=
  match ps with
  | [] => Some []
  | None :: _ => None
  | Some a :: rest =>
      match promiseAll rest with
      | Some l => Some (a :: l)
      | None => None
      end
  end.

(** The requests the [map] issues, the [i]-th recipient being call
    [first + i] to the provider. *)
Fixpoint dispatch (w : World) (mk : jsstring -> SendRequest) (first : nat)
    (toList : list jsstring) : list (SendRequest * option Delivery) :=
  match toList with
  | [] => []
  | to :: rest =>
      (mk to, settle to (fetch w first (mk to))) :: dispatch w mk (S first) rest
  end.

Definition fromAddress (w : World) : jsstring :=
  if truthyOpt (FROM_EMAIL w) then stringOf (FROM_EMAIL w)
  else js "notifications@no-reply.local".

Definition notConfigured : jsstring :=
  js "Email provider not configured. Set RESEND_API_KEY and FROM_EMAIL.".

(** The handler from [Array.from(recipients)] on. *)
Definition deliver (w : World) (found : FoundItemPayload)
    (toList : list jsstring) : Outcome * list SendRequest :=
  match toList with
  | [] =>
      (Responded (respond 200 (BNoRecipients (js "No recipients to notify") [])),
       [])
  | _ :: _ =>
      let '(subject, html) := composeEmail found in
      if negb (truthyOpt (RESEND_API_KEY w))
      then (Responded (respond 200 (BNotConfigured notConfigured toList subject)),
            [])
      else
        let key := stringOf (RESEND_API_KEY w) in
        let calls := dispatch w (mkSend key (fromAddress w) subject html)
                       0 toList in
        match promiseAll (map snd calls) with
        | Some results =>
            (Responded (respond 200
               (BResults (map d_to (filter d_ok results))
                         (filter (fun r => negb (d_ok r)) results))),
             map fst calls)
        | None => (Rejected, map fst calls)
        end
  end.

(** [Deno.serve(async (req) => ..)]. *)
Definition handler (w : World) (req : Request) : Outcome * Trace :=
  match validate w req with
  | inl r => (Responded r, noCalls)
  | inr (found, lostItems) =>
      let '(toList, calls) := resolve w found lostItems in
      let '(out, sent) := deliver w found toList in
      (out, {| lookups := calls; sends := sent |})
  end.

(** The recipient list a request resolves, when the handler gets that far. *)
Definition resolved (w : World) (req : Request) : option (list jsstring) :=
  match validate w req with
  | inl _ => None
  | inr (found, lostItems) => Some (fst (resolve w found lostItems))
  end.

End NotifyLostOnFound.

(* ================================================================= *)
(** ** notify-matches: found item looked up by identifier *)

Module NotifyMatches.

Record Config : Type := {
  cfg_key : jsstring;      (* RESEND_API_KEY *)
  cfg_from : jsstring      (* RESEND_FROM *)
}.

(** Messages of the [TypeError]s the engine raises on [null]. *)
Definition nullBodyMessage : jsstring :=
  js "Cannot destructure property 'foundItemId' of 'body' as it is null.".
Definition nullFoundItemMessage : jsstring :=
  js "Cannot read properties of null (reading 'category')".

(** Method and environment checks made before the [try] block. *)
Definition config (w : World) (req : Request) : Response + Config :=
  if jseqb (method req) (js "OPTIONS") then inl (respond 200 (BText (js "ok")))
  else if negb (jseqb (method req) (js "POST"))
  then inl (respond 405 (errorBody "Method not allowed"))
  else if negb (truthyOpt (SUPABASE_URL w))
          || negb (truthyOpt (SUPABASE_SERVICE_ROLE_KEY w))
  then inl (respond 500 (errorBody "Missing Supabase environment config"))
  else
    if negb (truthyOpt (RESEND_API_KEY w))
    then inl (respond 500 (errorBody "Missing RESEND_API_KEY secret"))
    else inr {| cfg_key := stringOf (RESEND_API_KEY w);
                cfg_from := match RESEND_FROM w with
                            | Some f => f
                            | None => js "Campus Finder <no-reply@yourapp.example>"
                            end |}.

(** [err?.message] of whatever the [try] block threw, answered with 500 by
    the outer [catch]. *)
Definition caught (message : jsstring) : Response :=
  respond 500 (BError message None).

(** First part of the [try] block: body, found item, lost items. *)
Definition gather (w : World) (req : Request)
  : Response + (FoundItemRow * list LostItemRow) :=
  match
    match body req with
    | BodyInvalid => inr None                  (* .catch(() => ({})) *)
    | BodyNull => inl (caught nullBodyMessage)
    | BodyObject _ foundItemId => inr foundItemId
    end
  with
  | inl r => inl r
  | inr foundItemId =>
      match foundItemId with
      | None => inl (respond 400 (errorBody "foundItemId is required"))
      | Some fid =>
          if negb (truthy fid)
          then inl (respond 400 (errorBody "foundItemId is required"))
          else
            match selectFoundById w fid with
            | QError m => inl (caught m)       (* throw foundErr *)
            | QData None => inl (caught nullFoundItemMessage)
            | QData (Some foundItem) =>
                let category := fr_category foundItem in
                let lostQuery :=
                  selectLost w category
                    (if truthy (fr_user_id foundItem)
                     then Some (fr_user_id foundItem) else None) in
                match lostQuery with
                | QError m => inl (caught m)   (* throw lostError *)
                | QData lostItems => inr (foundItem, rowsOf lostItems)
                end
            end
      end
  end.

(** [contact && contact.includes("@")] *)
Definition hasAt (contact : option jsstring) : bool :=
  match contact with
  | Some c => truthy c && includes [AT] c
  | None => false
  end.

(** What one answer of the account service adds to the recipients. *)
Definition addLookup (r : LookupResult) (toEmailsSet : list jsstring)
  : list jsstring :=
  match r with
  | LookupUser (Some email) =>
      if truthy email then setAdd email toEmailsSet else toEmailsSet
  | LookupUser None => toEmailsSet
  | LookupError => toEmailsSet         (* console.warn *)
  | LookupThrows => toEmailsSet        (* catch (e) { console.warn } *)
  end.

(** Body of the recipient loop; the state is [(toEmailsSet, calls)], [calls]
    listing the lookups made so far. *)
Definition step (w : World) (st : list jsstring * list jsstring)
    (li : LostItemRow) : list jsstring * list jsstring :=
  let '(toEmailsSet, calls) := st in
  if hasAt (li_contact_info li)
  then (setAdd (trim (stringOf (li_contact_info li))) toEmailsSet, calls)
  else if truthy (li_user_id li)
  then (addLookup (getUserById w (List.length calls) (li_user_id li)) toEmailsSet,
        calls ++ [li_user_id li])
  else st.

(** [toEmails] and the account lookups made to obtain it. *)
Definition resolve (w : World) (lostItems : list LostItemRow)
  : list jsstring * list jsstring :=
  fold_left (step w) lostItems ([], []).

Definition subjectOf (category : jsstring) : jsstring :=
  js "Possible match: Found item in " ++ category.

Definition previewTitle (foundItem : FoundItemRow) : jsstring :=
  if truthy (fr_title foundItem)
  then js ": " ++ [8220%N] ++ fr_title foundItem ++ [8221%N]
  else [].

Definition optionalPara (label : string) (v : option jsstring) : jsstring :=
  match v with
  | Some s =>
      if truthy s
      then js "<p><strong>" ++ js label ++ js ":</strong> " ++ s ++ js "</p>"
      else []
  | None => []
  end.

Definition htmlOf (foundItem : FoundItemRow) : jsstring :=
  let category := fr_category foundItem in
  NL
  ++ line 6 (js "<div style=" ++ QUOTE
             ++ js "font-family: system-ui, -apple-system, Segoe UI, Roboto, Helvetica, Arial;"
             ++ QUOTE ++ js ">")
  ++ line 8 (js "<h2>We found a potential match in " ++ category
             ++ previewTitle foundItem ++ js "</h2>")
  ++ line 8 (js "<p>Someone just reported a found item in the <strong>"
             ++ category ++ js "</strong> category.</p>")
  ++ line 8 (js "<p><strong>Title:</strong> " ++ fr_title foundItem ++ js "</p>")
  ++ line 8 (optionalPara "Description" (fr_description foundItem))
  ++ line 8 (optionalPara "Location" (fr_location foundItem))
  ++ line 8 (js "<p>Visit Campus Finder to view details and contact the finder.</p>")
  ++ line 6 (js "</div>")
  ++ spaces 4.

Definition mkSend (cfg : Config) (subject html to : jsstring) : SendRequest :=
  {| sr_authorization := js "Bearer " ++ cfg_key cfg;
     sr_from := cfg_from cfg; sr_to := to;
     sr_subject := subject; sr_html := html |}.

(** The send loop; the state is [sent], [failures] and the requests issued. *)
Fixpoint sendAll (w : World) (mk : jsstring -> SendRequest)
    (toEmails : list jsstring) (sent : nat) (failures : list Failure)
    (issued : list SendRequest) : nat * list Failure * list SendRequest :=
  match toEmails with
  | [] => (sent, failures, issued)
  | to :: rest =>
      let issued' := issued ++ [mk to] in
      match fetch w (List.length issued) (mk to) with
      | FetchResponse true _ => sendAll w mk rest (S sent) failures issued'
      | FetchResponse false (TextOk errText) =>
          sendAll w mk rest sent
            (failures ++ [{| f_to := to; f_error := errText |}]) issued'
      | FetchResponse false (TextFails m) | FetchThrows m =>
          sendAll w mk rest sent
            (failures ++ [{| f_to := to; f_error := m |}]) issued'
      end
  end.

(** The [try] block from the send loop on. *)
Definition deliver (w : World) (cfg : Config) (foundItem : FoundItemRow)
    (toEmails : list jsstring) : Response * list SendRequest :=
  let category := fr_category foundItem in
  let '(sent, failures, issued) :=
    sendAll w (mkSend cfg (subjectOf category) (htmlOf foundItem))
      toEmails 0 [] [] in
  (respond 200 (BSummary category (List.length toEmails) sent failures), issued).

(** [serve(async (req) => ..)]. *)
Definition handler (w : World) (req : Request) : Outcome * Trace :=
  match config w req with
  | inl r => (Responded r, noCalls)
  | inr cfg =>
      match gather w req with
      | inl r => (Responded r, noCalls)
      | inr (foundItem, lostItems) =>
          let '(toEmails, calls) := resolve w lostItems in
          let '(r, issued) := deliver w cfg foundItem toEmails in
          (Responded r, {| lookups := calls; sends := issued |})
      end
  end.

(** The recipient list that the request, the store and the account service
    determine: what the [try] block resolves, whatever the environment. *)
Definition determined (w : World) (req : Request) : option (list jsstring) :=
  match gather w req with
  | inl _ => None
  | inr (_, lostItems) => Some (fst (resolve w lostItems))
  end.

(** The recipient list a request resolves, when the handler gets that far. *)
Definition resolved (w : World) (req : Request) : option (list jsstring) :=
  match config w req with
  | inl _ => None
  | inr _ => determined w req
  end.

End NotifyMatches.

(* ================================================================= *)
(** ** A reference item store *)

(** A row of the [items] table with every column the two functions name. *)
Record ItemRow : Type := {
  it_id : jsstring;
  it_type : jsstring;
  it_status : jsstring;
  it_category : jsstring;
  it_title : jsstring;
  it_description : option jsstring;
  it_location : option jsstring;
  it_user_id : jsstring;
  it_contact_info : option jsstring;
  it_created_at : jsstring
}.

Definition toLost (r : ItemRow) : LostItemRow :=
  {| li_id := it_id r; li_title := it_title r;
     li_contact_info := it_contact_info r; li_user_id := it_user_id r |}.

Definition toFound (r : ItemRow) : FoundItemRow :=
  {| fr_id := it_id r; fr_title := it_title r;
     fr_description := it_description r; fr_category := it_category r;
     fr_location := it_location r; fr_user_id := it_user_id r;
     fr_created_at := it_created_at r |}.

(** The filters of the lost-item query. *)
Definition lostFilter (c : jsstring) (u : option jsstring) (r : ItemRow) : bool :=
  jseqb (it_type r) (js "lost") && jseqb (it_status r) (js "active")
  && jseqb (it_category r) c
  && match u with
     | Some x => negb (jseqb (it_user_id r) x)
     | None => true
     end.

(** A store that answers both queries by filtering an in-memory table, as
    the store contract describes (type, status, category and owner filters;
    [.single()] fails unless exactly one row has the identifier). *)
Definition tableSelectLost (tbl : list ItemRow) (c : jsstring)
    (u : option jsstring) : QueryResult (list LostItemRow) :=
  QData (Some (map toLost (filter (lostFilter c u) tbl))).

Definition tableSelectFoundById (tbl : list ItemRow) (i : jsstring)
  : QueryResult FoundItemRow :=
  match filter (fun r => jseqb (it_id r) i) tbl with
  | [r] => QData (Some (toFound r))
  | _ => QError (js "JSON object requested, multiple (or no) rows returned")
  end.

(** The owner filter of the store contract: rows returned for a query with
    [.neq("user_id", u)] are not owned by [u]. *)
Definition storeExcludesOwner (w : World) : Prop :=
  forall c u rows,
    selectLost w c (Some u) = QData (Some rows) ->
    Forall (fun r => li_user_id r <> u) rows.

(* ================================================================= *)
(** ** The two entry points side by side *)

Inductive Variant : Type := Inline | Lookup.

Definition serve (v : Variant) : World -> Request -> Outcome * Trace :=
  match v with
  | Inline => NotifyLostOnFound.handler
  | Lookup => NotifyMatches.handler
  end.

Definition resolvedBy (v : Variant) : World -> Request -> option (list jsstring) :=
  match v with
  | Inline => NotifyLostOnFound.resolved
  | Lookup => NotifyMatches.resolved
  end.

(** The addresses the e-mail provider was called for, in call order. *)
Definition dispatchedTo (t : Trace) : list jsstring := map sr_to (sends t).

(** A 200 response reporting that nobody is to be notified: an empty
    [recipients] array (inline variant) or a [recipients] count of zero
    (lookup variant). *)
Definition reportsNoRecipients (o : Outcome) : bool :=
  match o with
  | Responded {| status := 200; rbody := BNoRecipients _ [] |} => true
  | Responded {| status := 200; rbody := BSummary _ 0 _ _ |} => true
  | _ => false
  end.

(** The stored contact is a string matching
    [^[^\s@]+@[^\s@]+\.[^\s@]+$]. *)
Definition emailShaped (contact : option jsstring) : Prop :=
  exists c, contact = Some c /\ Matches emailRegex c.

(** The lost item is not owned by [reporter]. *)
Definition notOwnedBy (reporter : jsstring) (it : LostItemRow) : bool :=
  negb (jseqb (li_user_id it) reporter).

(** Address [a] is obtained from the lost item [it]: it is the trimmed
    contact string, used directly as [direct] decides, or else the non-empty
    address some answer of the account service gives for the owner. *)
Definition obtainedFrom (direct : option jsstring -> bool) (w : World)
    (a : jsstring) (it : LostItemRow) : Prop :=
  (direct (li_contact_info it) = true /\
   a = trim (stringOf (li_contact_info it)))
  \/ (direct (li_contact_info it) = false /\ truthy a = true /\
      exists n, getUserById w n (li_user_id it) = LookupUser (Some a)).

(** The account lookup failed: a rejected promise or an error result. *)
Definition failed (r : LookupResult) : bool :=
  match r with
  | LookupThrows | LookupError => true
  | LookupUser _ => false
  end.

(** The world in which every failing account lookup of [w] instead finds a
    user without e-mail address. *)
Definition silence (w : World) : World :=
  {| SUPABASE_URL := SUPABASE_URL w;
     SUPABASE_SERVICE_ROLE_KEY := SUPABASE_SERVICE_ROLE_KEY w;
     RESEND_API_KEY := RESEND_API_KEY w;
     FROM_EMAIL := FROM_EMAIL w;
     RESEND_FROM := RESEND_FROM w;
     selectLost := selectLost w;
     selectFoundById := selectFoundById w;
     getUserById := fun n uid =>
                      if failed (getUserById w n uid) then LookupUser None
                      else getUserById w n uid;
     fetch := fetch w |}.

(** Assumptions under which the two variants can be compared. *)







(** The lost rows recipient resolution works on, when the handler gets
    that far: the returned rows, less those of the reporter in the inline
    variant. *)
Definition candidatesOf (v : Variant) (w : World) (req : Request)
  : option (list LostItemRow) :=
  match v with
  | Inline =>
      match NotifyLostOnFound.validate w req with
      | inl _ => None
      | inr (found, lostItems) =>
          Some (filter (notOwnedBy (fp_user_id found)) lostItems)
      end
  | Lookup =>
      match NotifyMatches.config w req with
      | inl _ => None
      | inr _ =>
          match NotifyMatches.gather w req with
          | inl _ => None
          | inr (_, lostItems) => Some lostItems
          end
      end
  end.

(** The test on the stored contact that makes a variant use it directly. *)
Definition usedDirectly (v : Variant) : option jsstring -> bool :=
  match v with
  | Inline => isEmail
  | Lookup => NotifyMatches.hasAt
  end.

(** Whether a variant that resolved recipients goes on to call the
    provider: always in the lookup variant, with the credential only in the
    inline variant. *)
Definition dispatches (v : Variant) (w : World) : bool :=
  match v with
  | Inline => truthyOpt (RESEND_API_KEY w)
  | Lookup => true
  end.

(** "Every resolved address is dispatched to exactly once", for variant
    [v]. *)
Definition dispatchedExactlyOnce (v : Variant) : Prop :=
  forall w req l a,
    resolvedBy v w req = Some l -> In a l ->
    count_occ (list_eq_dec N.eq_dec) (dispatchedTo (snd (serve v w req))) a = 1.

(** The response lists [l] as the recipients that would be notified. *)
Definition listsIntended (l : list jsstring) (b : Body) : Prop :=
  match b with
  | BNotConfigured _ wouldNotify _ => wouldNotify = l
  | _ => False
  end.

(** "A missing e-mail credential is a successful no-op": whenever the
    credential is absent and the request determines the non-empty recipient
    list [l], handler [run] answers 200, lists [l] and calls the provider
    for nobody. *)
Definition missingKeyIsNoOp
    (run : World -> Request -> Outcome * Trace)
    (recipientsOf : World -> Request -> option (list jsstring)) : Prop :=
  forall w req l,
    truthyOpt (RESEND_API_KEY w) = false ->
    recipientsOf w req = Some l -> l <> [] ->
    exists r t,
      run w req = (Responded r, t) /\
      status r = 200 /\ listsIntended l (rbody r) /\ sends t = [].

(* ================================================================= *)
(** ** A concrete deployment: the scenario of the specification *)

Definition item (id type category owner : string)
    (contact : option jsstring) : ItemRow :=
  {| it_id := js id; it_type := js type; it_status := js "active";
     it_category := js category; it_title := js "iPhone 13";
     it_description := None; it_location := None;
     it_user_id := js owner; it_contact_info := contact;
     it_created_at := js "2024-01-01T00:00:00Z" |}.

(** The found item reported by [u1] and the two lost items of its category;
    a found item of a category in which nothing was lost. *)
Definition scenarioTable : list ItemRow :=
  [ item "f1" "found" "Electronics" "u1" None;
    item "l2" "lost" "Electronics" "u2" (Some (js "a@b.com"));
    item "l3" "lost" "Electronics" "u3" None;
    item "f2" "found" "Books" "u4" None ].

(** The account service knows the address of [u3] only. *)
Definition scenarioAccounts (n : nat) (uid : jsstring) : LookupResult :=
  if jseqb uid (js "u3") then LookupUser (Some (js "c@d.com")) else LookupError.

Definition deployment (tbl : list ItemRow)
    (accounts : nat -> jsstring -> LookupResult)
    (key : option jsstring)
    (provider : nat -> SendRequest -> FetchResult) : World :=
  {| SUPABASE_URL := Some (js "https://project.supabase.co");
     SUPABASE_SERVICE_ROLE_KEY := Some (js "service-role-key");
     RESEND_API_KEY := key;
     FROM_EMAIL := None;
     RESEND_FROM := None;
     selectLost := tableSelectLost tbl;
     selectFoundById := tableSelectFoundById tbl;
     getUserById := accounts;
     fetch := provider |}.

Definition scenarioWorld : option jsstring ->
    (nat -> SendRequest -> FetchResult) -> World :=
  deployment scenarioTable scenarioAccounts.

Definition scenarioFound : FoundItemPayload :=
  {| fp_id := js "f1"; fp_user_id := js "u1"; fp_category := js "Electronics";
     fp_title := js "iPhone 13"; fp_description := None; fp_location := None |}.

Definition post (b : JsonBody) : Request := {| method := js "POST"; body := b |}.

Definition inlineRequest : Request := post (BodyObject (Some scenarioFound) None).
Definition lookupRequest : Request := post (BodyObject None (Some (js "f1"))).

(** The same for the found item without candidates. *)
Definition inlineBooksRequest : Request :=
  post (BodyObject
          (Some {| fp_id := js "f2"; fp_user_id := js "u4";
                   fp_category := js "Books"; fp_title := js "iPhone 13";
                   fp_description := None; fp_location := None |}) None).
Definition lookupBooksRequest : Request :=
  post (BodyObject None (Some (js "f2"))).

(** Providers: one that accepts every message, one that answers as told. *)
Definition accepting (n : nat) (r : SendRequest) : FetchResult :=
  FetchResponse true (TextOk []).

Definition answering (ans : nat -> SendRequest -> bool * TextResult)
    (n : nat) (r : SendRequest) : FetchResult :=
  FetchResponse (fst (ans n r)) (snd (ans n r)).

(** Three candidates that all resolve to one address: twice through the
    contact string (once padded), once through the account service. *)
Definition sharedTable : list ItemRow :=
  [ item "f1" "found" "Electronics" "u1" None;
    item "l2" "lost" "Electronics" "u2" (Some (js "a@b.com"));
    item "l5" "lost" "Electronics" "u5" (Some (js " a@b.com "));
    item "l3" "lost" "Electronics" "u3" None ].

Definition sharedAccounts (n : nat) (uid : jsstring) : LookupResult :=
  if jseqb uid (js "u3") then LookupUser (Some (js "a@b.com")) else LookupError.

Definition sharedWorld : World :=
  deployment sharedTable sharedAccounts (Some (js "re_key")) accepting.

(** The two candidates of the scenario, as the lost-item query returns them. *)
Definition candidateU2 : LostItemRow :=
  toLost (item "l2" "lost" "Electronics" "u2" (Some (js "a@b.com"))).
Definition candidateU3 : LostItemRow :=
  toLost (item "l3" "lost" "Electronics" "u3" None).
Definition scenarioRows : list LostItemRow := [candidateU2; candidateU3].

(** The scenario with one more lost item, reported by the finder. *)
Definition reporterTable : list ItemRow :=
  scenarioTable ++ [ item "l1" "lost" "Electronics" "u1" (Some (js "me@u1.org")) ].

Definition reporterWorld : World :=
  deployment reporterTable scenarioAccounts (Some (js "re_key")) accepting.

(** The scenario with an account service that is down. *)
Definition accountsDown (n : nat) (uid : jsstring) : LookupResult := LookupThrows.

Definition downWorld : World :=
  deployment scenarioTable accountsDown (Some (js "re_key")) accepting.

(** Providers that fail for "a@b.com": by a rejected [fetch] (transport
    error), or by a non-2xx response. *)
Definition unreachable (n : nat) (r : SendRequest) : FetchResult :=
  if jseqb (sr_to r) (js "a@b.com") then FetchThrows (js "connection reset")
  else FetchResponse true (TextOk []).

Definition refusing (n : nat) (r : SendRequest) : FetchResult :=
  if jseqb (sr_to r) (js "a@b.com")
  then FetchResponse false (TextOk (js "invalid recipient"))
  else FetchResponse true (TextOk []).

Definition unreachableWorld : World :=
  scenarioWorld (Some (js "re_key")) unreachable.

Definition refusingWorld : World :=
  scenarioWorld (Some (js "re_key")) refusing.




(* ================================================================= *)
(** ** src/lib/notifications: the e-mail composer of the web client *)

Module Notifications.

Record FoundItemForEmail : Type := {
  title : jsstring;
  category : jsstring;
  description : option jsstring;
  location : option jsstring
}.

(** The [lines] array once both conditional pushes ran. *)
Definition linesOf (found : FoundItemForEmail) : list jsstring :=
  [ js "Someone just reported a found item in the " ++ category found
      ++ js " category.";
    js "Title: " ++ title found ]
  ++ (if truthyOpt (description found)
      then [js "Description: " ++ stringOf (description found)] else [])
  ++ (if truthyOpt (location found)
      then [js "Location: " ++ stringOf (location found)] else []).

(** [lines.slice(1).map((l) => `<li>${l}</li>`).join("")] *)
Definition listItems (lines : list jsstring) : jsstring :=
  List.concat (map (fun l => js "<li>" ++ l ++ js "</li>") (skipn 1 lines)).

Definition composeFoundMatchEmail (found : FoundItemForEmail)
  : jsstring * jsstring :=
  let subject := js "New found item in " ++ category found
                 ++ js " may match your lost item" in
  let lines := linesOf found in
  let html :=
    NL
    ++ line 4 (js "<div style=" ++ QUOTE
               ++ js "font-family: Arial, sans-serif; line-height:1.5;"
               ++ QUOTE ++ js ">")
    ++ line 6 (js "<h2>Possible match for your lost item</h2>")
    ++ line 6 (js "<p>" ++ nth 0 lines (js "undefined") ++ js "</p>")
    ++ line 6 (js "<ul>")
    ++ line 8 (listItems lines)
    ++ line 6 (js "</ul>")
    ++ line 6 (js "<p>Visit the app to review details and contact the finder.</p>")
    ++ line 4 (js "</div>")
    ++ spaces 2 in
  (subject, html).

End Notifications.

(* ================================================================= *)
(** ** Vocabulary of the further properties *)

(** The request carries a found item with a category and a reporter. *)
Definition validPayload (b : JsonBody) : bool :=
  match b with
  | BodyObject (Some found) _ =>
      truthy (fp_category found) && truthy (fp_user_id found)
  | _ => false
  end.

(** The found item of a valid payload. *)
Definition payloadOf (b : JsonBody) : option FoundItemPayload :=
  match b with
  | BodyObject (Some found) _ => Some found
  | _ => None
  end.

(** Both store settings are present in the environment. *)
Definition storeConfigured (w : World) : bool :=
  truthyOpt (SUPABASE_URL w) && truthyOpt (SUPABASE_SERVICE_ROLE_KEY w).

(** The identifier a lookup request names, if any. *)
Definition foundItemIdOf (b : JsonBody) : option jsstring :=
  match b with
  | BodyObject _ (Some fid) => if truthy fid then Some fid else None
  | _ => None
  end.

(** The lost row makes the lookup variant call the account service. *)
Definition needsLookup (it : LostItemRow) : bool :=
  negb (NotifyMatches.hasAt (li_contact_info it)) && truthy (li_user_id it).

(** Address [a] was answered by the account service in world [w]. *)
Definition fromAccounts (w : World) (a : jsstring) : Prop :=
  exists n uid, getUserById w n uid = LookupUser (Some a).

(** Every call to the provider answers (no transport error). *)
Definition providerAnswers (w : World) : Prop :=
  forall n rq, exists ok text, fetch w n rq = FetchResponse ok text.

(** The found item of the client's test. *)
Definition backpack : Notifications.FoundItemForEmail :=
  {| Notifications.title := js "Blue Backpack";
     Notifications.category := js "Bags & Backpacks";
     Notifications.description :=
       Some (js "Navy blue, front pocket zipper broken");
     Notifications.location := Some (js "Library") |}.

(** The same found item as an inline payload and as a store row. *)
Definition backpackPayload : FoundItemPayload :=
  {| fp_id := js "f7"; fp_user_id := js "u1";
     fp_category := js "Bags & Backpacks"; fp_title := js "Blue Backpack";
     fp_description := Some (js "Navy blue, front pocket zipper broken");
     fp_location := Some (js "Library") |}.

Definition backpackRow : FoundItemRow :=
  {| fr_id := js "f7"; fr_title := js "Blue Backpack";
     fr_description := Some (js "Navy blue, front pocket zipper broken");
     fr_category := js "Bags & Backpacks";
     fr_location := Some (js "Library"); fr_user_id := js "u1";
     fr_created_at := js "2024-01-01T00:00:00Z" |}.

(** A deployment whose item store fails every query. *)
Definition brokenStoreWorld : World :=
  {| SUPABASE_URL := Some (js "https://project.supabase.co");
     SUPABASE_SERVICE_ROLE_KEY := Some (js "service-role-key");
     RESEND_API_KEY := Some (js "re_key");
     FROM_EMAIL := None;
     RESEND_FROM := None;
     selectLost := fun _ _ => QError (js "upstream timeout");
     selectFoundById := fun _ => QError (js "upstream timeout");
     getUserById := scenarioAccounts;
     fetch := accepting |}.

(** The deployment of [sharedWorld] without the e-mail credential. *)
Definition sharedKeylessWorld : World :=
  deployment sharedTable sharedAccounts None accepting.


(* ================================================================= *)
(** * Properties *)

(** ** Strings and sets *)

Lemma jseqb_eq (a b : jsstring) : jseqb a b = true <-> a = b.
Proof.
  unfold jseqb. destruct (list_eq_dec N.eq_dec a b); split; congruence.
Qed.

Lemma jseqb_neq (a b : jsstring) : jseqb a b = false <-> a <> b.
Proof.
  unfold jseqb. destruct (list_eq_dec N.eq_dec a b); split; congruence.
Qed.

Lemma jseqb_refl (a : jsstring) : jseqb a a = true.
Proof. now apply jseqb_eq. Qed.

Lemma setHas_In (x : jsstring) (s : list jsstring) :
  setHas x s = true <-> In x s.
Proof.
  unfold setHas. rewrite existsb_exists. split.
  - intros (y & Hy & E). apply jseqb_eq in E. now subst.
  - intros H. exists x. split; [assumption | apply jseqb_refl].
Qed.

Lemma setAdd_In (x y : jsstring) (s : list jsstring) :
  In x (setAdd y s) <-> x = y \/ In x s.
Proof.
  unfold setAdd. destruct (setHas y s) eqn:E.
  - apply setHas_In in E. split; [now right | intros [->|H]; assumption].
  - rewrite in_app_iff. simpl. intuition congruence.
Qed.

Lemma setAdd_NoDup (y : jsstring) (s : list jsstring) :
  NoDup s -> NoDup (setAdd y s).
Proof.
  intros H. unfold setAdd. destruct (setHas y s) eqn:E; [assumption|].
  assert (~ In y s) as Hn by (rewrite <- setHas_In; congruence).
  apply NoDup_rev in H. rewrite <- (rev_involutive (s ++ [y])).
  apply NoDup_rev. rewrite rev_app_distr. simpl. constructor.
  - now rewrite <- in_rev.
  - assumption.
Qed.

Lemma setAdd_keeps (x y : jsstring) (s : list jsstring) :
  In x s -> In x (setAdd y s).
Proof. intros H. apply setAdd_In. now right. Qed.

Lemma trimStart_In (c : N) (s : jsstring) : In c (trimStart s) -> In c s.
Proof.
  induction s as [|a s IH]; simpl; [tauto|].
  destruct (isWhite a); simpl; tauto.
Qed.

Lemma trim_In (c : N) (s : jsstring) : In c (trim s) -> In c s.
Proof.
  unfold trim, trimEnd. intros H. apply trimStart_In.
  apply in_rev. apply in_rev in H. now apply trimStart_In in H.
Qed.

Lemma trimStart_clean (s : jsstring) :
  Forall (fun c => isWhite c = false) s -> trimStart s = s.
Proof.
  intros H. destruct H as [|c s Hc _]; simpl; [reflexivity|]. now rewrite Hc.
Qed.

(** A string without white space is its own trim. *)
Lemma trim_clean (s : jsstring) :
  Forall (fun c => isWhite c = false) s -> trim s = s.
Proof.
  intros H. unfold trim, trimEnd. rewrite (trimStart_clean H).
  rewrite trimStart_clean; [apply rev_involutive|].
  apply Forall_forall. intros c Hc. apply in_rev in Hc.
  revert c Hc. now apply Forall_forall.
Qed.

Lemma includes_char (c : N) (s : jsstring) :
  includes [c] s = true <-> In c s.
Proof.
  induction s as [|a s IH]; simpl.
  - split; [discriminate | tauto].
  - rewrite orb_true_iff, IH. destruct s; simpl;
      rewrite andb_true_r, N.eqb_eq; intuition congruence.
Qed.

(** ** The regular-expression matcher computes language membership *)

Lemma Matches_seq_inv (r s : regex) (t : jsstring) :
  Matches (RSeq r s) t ->
  exists u v, t = u ++ v /\ Matches r u /\ Matches s v.
Proof. inversion 1; subst; eauto. Qed.

Lemma Matches_alt_inv (r s : regex) (t : jsstring) :
  Matches (RAlt r s) t -> Matches r t \/ Matches s t.
Proof. inversion 1; subst; tauto. Qed.

Lemma Matches_class_inv (p : N -> bool) (t : jsstring) :
  Matches (RClass p) t -> exists c, t = [c] /\ p c = true.
Proof. inversion 1; subst; eauto. Qed.

Lemma Matches_eps_inv (t : jsstring) : Matches REps t -> t = [].
Proof. now inversion 1. Qed.

Lemma nullable_spec (r : regex) : nullable r = true <-> Matches r [].
Proof.
  induction r as [| |p|r1 IH1 r2 IH2|r1 IH1 r2 IH2|r IH]; simpl.
  - split; [discriminate | inversion 1].
  - split; [constructor | reflexivity].
  - split; [discriminate | inversion 1].
  - rewrite andb_true_iff, IH1, IH2. split.
    + intros [H1 H2]. exact (MSeq H1 H2).
    + intros H. apply Matches_seq_inv in H as (u & v & E & Hu & Hv).
      symmetry in E. apply app_eq_nil in E. destruct E; subst. now split.
  - rewrite orb_true_iff, IH1, IH2. split.
    + intros [H|H]; [now apply MAltL | now apply MAltR].
    + apply Matches_alt_inv.
  - split; [constructor | reflexivity].
Qed.

(** A non-empty match of [r*] starts with a non-empty match of [r]. *)
Lemma star_cons (r : regex) (c : N) (s : jsstring) :
  Matches (RStar r) (c :: s) ->
  exists u v, s = u ++ v /\ Matches r (c :: u) /\ Matches (RStar r) v.
Proof.
  intros H. remember (RStar r) as e eqn:Ee. remember (c :: s) as t eqn:Et.
  revert s Et.
  induction H as [| | | | | |r' u v Hu _ Hv IHv]; intros s0 Et;
    try discriminate.
  injection Ee as ->. destruct u as [|a u]; simpl in Et.
  - now apply IHv.
  - injection Et as -> <-. now exists u, v.
Qed.

Lemma deriv_spec (c : N) (r : regex) (s : jsstring) :
  Matches (deriv c r) s <-> Matches r (c :: s).
Proof.
  revert s.
  induction r as [| |p|r1 IH1 r2 IH2|r1 IH1 r2 IH2|r IH]; intros s; simpl.
  - split; inversion 1.
  - split; inversion 1.
  - destruct (p c) eqn:Ep; split; intros H.
    + apply Matches_eps_inv in H. subst. now constructor.
    + apply Matches_class_inv in H as (a & E & _). injection E as -> ->.
      constructor.
    + inversion H.
    + apply Matches_class_inv in H as (a & E & Ha). injection E as -> ->.
      congruence.
  - assert (forall t, Matches (RSeq (deriv c r1) r2) t ->
                      Matches (RSeq r1 r2) (c :: t)) as Hseq.
    { intros t Ht. apply Matches_seq_inv in Ht as (u & v & -> & Hu & Hv).
      apply IH1 in Hu. exact (MSeq Hu Hv). }
    split.
    + destruct (nullable r1) eqn:En; [|apply Hseq].
      intros H. apply Matches_alt_inv in H as [H|H]; [now apply Hseq|].
      apply IH2 in H. apply nullable_spec in En. exact (MSeq En H).
    + intros H. apply Matches_seq_inv in H as (u & v & E & Hu & Hv).
      destruct u as [|a u]; simpl in E.
      * subst v. apply nullable_spec in Hu as En. rewrite En.
        apply MAltR. now apply IH2.
      * injection E as <- ->. apply IH1 in Hu.
        destruct (nullable r1); [apply MAltL|]; now constructor.
  - split; intros H; apply Matches_alt_inv in H as [H|H];
      try (apply MAltL; now apply IH1); apply MAltR; now apply IH2.
  - split.
    + intros H. apply Matches_seq_inv in H as (u & v & -> & Hu & Hv).
      apply IH in Hu. exact (MStarApp Hu Hv).
    + intros H. apply star_cons in H as (u & v & -> & Hu & Hv).
      constructor; [now apply IH | assumption].
Qed.

Theorem regexTest_spec (r : regex) (s : jsstring) :
  regexTest r s = true <-> Matches r s.
Proof.
  revert r. induction s as [|c s IH]; intros r; simpl.
  - apply nullable_spec.
  - rewrite IH. apply deriv_spec.
Qed.

(** ** The e-mail shape *)

Lemma star_class_spec (p : N -> bool) (s : jsstring) :
  Matches (RStar (RClass p)) s <-> Forall (fun c => p c = true) s.
Proof.
  split.
  - induction s as [|c s IH]; intros H; [constructor|].
    apply star_cons in H as (u & v & -> & Hu & Hv).
    apply Matches_class_inv in Hu as (a & E & Ha).
    injection E as -> ->. constructor; [assumption | now apply IH].
  - induction 1 as [|c s Hc _ IH]; [constructor|].
    apply (MStarApp (u := [c])); [now constructor | assumption].
Qed.

Lemma plus_class_spec (p : N -> bool) (s : jsstring) :
  Matches (RPlus (RClass p)) s <-> s <> [] /\ Forall (fun c => p c = true) s.
Proof.
  unfold RPlus. split.
  - intros H. apply Matches_seq_inv in H as (u & v & -> & Hu & Hv).
    apply Matches_class_inv in Hu as (a & -> & Ha).
    apply star_class_spec in Hv. split; [discriminate | now constructor].
  - intros [Hne H]. destruct H as [|c s Hc Hs]; [congruence|].
    apply (MSeq (u := [c])); [now constructor | now apply star_class_spec].
Qed.

Lemma char_spec (c : N) (s : jsstring) : Matches (RChar c) s <-> s = [c].
Proof.
  unfold RChar. split.
  - intros H. apply Matches_class_inv in H as (a & -> & Ha).
    apply N.eqb_eq in Ha. now subst.
  - intros ->. constructor. apply N.eqb_refl.
Qed.

(** The strings of [emailRegex]: a local part, ["@"], a domain whose last
    dot-separated label and what precedes it are non-empty, none of the
    three parts holding white space or ["@"]. *)
Theorem emailRegex_shape (s : jsstring) :
  Matches emailRegex s <->
  exists a b c,
    s = a ++ AT :: b ++ DOT :: c /\
    a <> [] /\ b <> [] /\ c <> [] /\
    Forall (fun x => notSpaceAt x = true) a /\
    Forall (fun x => notSpaceAt x = true) b /\
    Forall (fun x => notSpaceAt x = true) c.
Proof.
  unfold emailRegex. split.
  - intros H.
    apply Matches_seq_inv in H as (a & t1 & -> & Ha & H).
    apply Matches_seq_inv in H as (x & t2 & -> & Hx & H).
    apply Matches_seq_inv in H as (b & t3 & -> & Hb & H).
    apply Matches_seq_inv in H as (y & c & -> & Hy & Hc).
    apply char_spec in Hx, Hy. subst x y.
    apply plus_class_spec in Ha as [? ?], Hb as [? ?], Hc as [? ?].
    exists a, b, c. simpl. repeat split; assumption.
  - intros (a & b & c & -> & Ha & Hb & Hc & Fa & Fb & Fc).
    apply MSeq; [now apply plus_class_spec|].
    apply (MSeq (u := [AT])); [now apply char_spec|].
    apply MSeq; [now apply plus_class_spec|].
    apply (MSeq (u := [DOT])); [now apply char_spec|].
    now apply plus_class_spec.
Qed.

Lemma notSpaceAt_white (c : N) : notSpaceAt c = true -> isWhite c = false.
Proof.
  unfold notSpaceAt. rewrite andb_true_iff, negb_true_iff. tauto.
Qed.

Lemma emailShape_clean (s : jsstring) :
  Matches emailRegex s -> Forall (fun c => isWhite c = false) s.
Proof.
  intros H. apply emailRegex_shape in H
    as (a & b & c & -> & _ & _ & _ & Fa & Fb & Fc).
  assert (forall l, Forall (fun x => notSpaceAt x = true) l ->
                    Forall (fun x => isWhite x = false) l) as Hw.
  { intros l Hl. eapply Forall_impl; [|exact Hl]. apply notSpaceAt_white. }
  apply Forall_app. split; [now apply Hw|].
  constructor; [reflexivity|].
  apply Forall_app. split; [now apply Hw|].
  constructor; [reflexivity | now apply Hw].
Qed.

Lemma emailShape_at (s : jsstring) : Matches emailRegex s -> In AT s.
Proof.
  intros H. apply emailRegex_shape in H as (a & b & c & -> & _).
  apply in_or_app. right. now left.
Qed.

(** A contact string of the e-mail shape passes [isEmail] and is its own
    trim. *)
Lemma emailShape_isEmail (c : jsstring) :
  Matches emailRegex c -> isEmail (Some c) = true /\ trim c = c.
Proof.
  intros H. pose proof (trim_clean (emailShape_clean H)) as Ht.
  split; [|assumption]. unfold isEmail. rewrite Ht.
  assert (truthy c = true) as ->
    by (destruct c; [apply emailShape_at in H; destruct H | reflexivity]).
  cbn [negb]. now apply regexTest_spec.
Qed.

(** Whatever passes [isEmail] holds an ["@"]. *)
Lemma isEmail_hasAt (v : option jsstring) :
  isEmail v = true -> NotifyMatches.hasAt v = true.
Proof.
  destruct v as [c|]; simpl; [|discriminate].
  destruct (truthy c); simpl; [|discriminate].
  intros H. apply regexTest_spec, emailShape_at, trim_In in H.
  now apply includes_char.
Qed.

Example isEmail_ok : isEmail (Some (js "a@b.com")) = true.
Proof. reflexivity. Qed.
Example isEmail_padded : isEmail (Some (js "  a@b.com ")) = true.
Proof. reflexivity. Qed.
Example isEmail_nodot : isEmail (Some (js "a@b")) = false.
Proof. reflexivity. Qed.
Example isEmail_null : isEmail None = false.
Proof. reflexivity. Qed.
Example hasAt_nodot : NotifyMatches.hasAt (Some (js "a@b")) = true.
Proof. reflexivity. Qed.

(** ** Scenario checks *)

Example scenario_inline_resolved key provider :
  NotifyLostOnFound.resolved (scenarioWorld key provider) inlineRequest
  = Some [js "a@b.com"; js "c@d.com"].
Proof. reflexivity. Qed.

Example scenario_lookup_determined key provider :
  NotifyMatches.determined (scenarioWorld key provider) lookupRequest
  = Some [js "a@b.com"; js "c@d.com"].
Proof. reflexivity. Qed.

(** ** Empty recipient set *)

Lemma inline_resolved_inv w req l :
  NotifyLostOnFound.resolved w req = Some l ->
  exists found lostItems calls,
    NotifyLostOnFound.validate w req = inr (found, lostItems) /\
    NotifyLostOnFound.resolve w found lostItems = (l, calls).
Proof.
  unfold NotifyLostOnFound.resolved.
  destruct (NotifyLostOnFound.validate w req) as [r|[found lostItems]];
    [discriminate|].
  destruct (NotifyLostOnFound.resolve w found lostItems) as [l' calls] eqn:E.
  simpl. intros [= ->]. now exists found, lostItems, calls.
Qed.

Lemma lookup_resolved_inv w req l :
  NotifyMatches.resolved w req = Some l ->
  exists cfg foundItem lostItems calls,
    NotifyMatches.config w req = inr cfg /\
    NotifyMatches.gather w req = inr (foundItem, lostItems) /\
    NotifyMatches.resolve w lostItems = (l, calls).
Proof.
  unfold NotifyMatches.resolved, NotifyMatches.determined.
  destruct (NotifyMatches.config w req) as [r|cfg]; [discriminate|].
  destruct (NotifyMatches.gather w req) as [r|[foundItem lostItems]];
    [discriminate|].
  destruct (NotifyMatches.resolve w lostItems) as [l' calls] eqn:E.
  simpl. intros [= ->]. now exists cfg, foundItem, lostItems, calls.
Qed.

(** C8. A request whose resolved recipient set is empty is answered 200 with
    an empty recipient list (inline variant) or a recipient count of zero
    (lookup variant), and the e-mail provider is not called. *)
Theorem C8_empty_recipients (v : Variant) (w : World) (req : Request) :
  resolvedBy v w req = Some [] ->
  reportsNoRecipients (fst (serve v w req)) = true /\
  dispatchedTo (snd (serve v w req)) = [].
Proof.
  destruct v; simpl; intros H.
  - apply inline_resolved_inv in H as (found & lostItems & calls & Hv & Hr).
    unfold NotifyLostOnFound.handler. rewrite Hv, Hr. simpl. now split.
  - apply lookup_resolved_inv in H
      as (cfg & foundItem & lostItems & calls & Hc & Hg & Hr).
    unfold NotifyMatches.handler. rewrite Hc, Hg, Hr. simpl. now split.
Qed.

(** The scenario table holds no lost item in the category "Books". *)
Lemma C8_empty_recipients_witness :
  (reportsNoRecipients
     (fst (serve Inline (scenarioWorld None accepting) inlineBooksRequest))
   = true /\
   dispatchedTo
     (snd (serve Inline (scenarioWorld None accepting) inlineBooksRequest))
   = []) /\
  (reportsNoRecipients
     (fst (serve Lookup (scenarioWorld (Some (js "re_key")) accepting)
             lookupBooksRequest))
   = true /\
   dispatchedTo
     (snd (serve Lookup (scenarioWorld (Some (js "re_key")) accepting)
             lookupBooksRequest))
   = []).
Proof. split; apply C8_empty_recipients; reflexivity. Defined.

(** ** Missing e-mail credential *)

Lemma inline_validate_body w req r :
  NotifyLostOnFound.validate w req = inl r ->
  match rbody r with BText _ | BError _ _ => True | _ => False end.
Proof.
  unfold NotifyLostOnFound.validate. intros H.
  repeat match type of H with
         | context [if ?b then _ else _] => destruct b
         | context [match ?x with _ => _ end] => destruct x
         end; try discriminate; injection H as <-; exact I.
Qed.

(** The three ways the inline handler ends once recipients are resolved. *)
Lemma inline_deliver_cases w found toList :
  (toList = [] /\
   NotifyLostOnFound.deliver w found toList =
     (Responded (respond 200 (BNoRecipients (js "No recipients to notify") [])),
      []))
  \/ (toList <> [] /\ truthyOpt (RESEND_API_KEY w) = false /\
      NotifyLostOnFound.deliver w found toList =
        (Responded (respond 200
           (BNotConfigured NotifyLostOnFound.notConfigured toList
              (NotifyLostOnFound.subjectOf found))), []))
  \/ (toList <> [] /\ truthyOpt (RESEND_API_KEY w) = true /\
      exists calls,
        calls = NotifyLostOnFound.dispatch w
                  (NotifyLostOnFound.mkSend (stringOf (RESEND_API_KEY w))
                     (NotifyLostOnFound.fromAddress w)
                     (NotifyLostOnFound.subjectOf found)
                     (NotifyLostOnFound.htmlOf found)) 0 toList /\
        NotifyLostOnFound.deliver w found toList =
          (match NotifyLostOnFound.promiseAll (map snd calls) with
           | Some results =>
               Responded (respond 200
                 (BResults (map d_to (filter d_ok results))
                           (filter (fun r => negb (d_ok r)) results)))
           | None => Rejected
           end, map fst calls)).
Proof.
  destruct toList as [|to rest]; [left; now split|right].
  unfold NotifyLostOnFound.deliver, NotifyLostOnFound.composeEmail.
  destruct (truthyOpt (RESEND_API_KEY w)); cbn [negb].
  - right. repeat split; [discriminate|]. eexists. split; [reflexivity|].
    now destruct (NotifyLostOnFound.promiseAll _).
  - left. repeat split. discriminate.
Qed.

(** C10. Inline variant: a request that resolves no recipient is answered
    200 with an empty recipient list whatever the e-mail credential, and the
    "provider not configured" answer is only given for a non-empty resolved
    recipient list (and a missing credential). *)
Theorem C10_empty_check_first (w : World) (req : Request) :
  (NotifyLostOnFound.resolved w req = Some [] ->
   fst (NotifyLostOnFound.handler w req) =
     Responded (respond 200 (BNoRecipients (js "No recipients to notify") [])))
  /\
  (forall st m l subject,
     fst (NotifyLostOnFound.handler w req) =
       Responded {| status := st; rbody := BNotConfigured m l subject |} ->
     l <> [] /\ NotifyLostOnFound.resolved w req = Some l /\
     truthyOpt (RESEND_API_KEY w) = false).
Proof.
  split.
  - intros H. apply inline_resolved_inv in H as (found & lostItems & calls & Hv & Hr).
    unfold NotifyLostOnFound.handler. now rewrite Hv, Hr.
  - intros st m l subject. unfold NotifyLostOnFound.handler, NotifyLostOnFound.resolved.
    destruct (NotifyLostOnFound.validate w req) as [r|[found lostItems]] eqn:Hv.
    + simpl. intros [= ->]. apply inline_validate_body in Hv. simpl in Hv. tauto.
    + destruct (NotifyLostOnFound.resolve w found lostItems) as [toList calls].
      destruct (inline_deliver_cases w found toList)
        as [[_ ->]|[(Hne & Hk & ->)|(_ & _ & cs & _ & ->)]]; simpl.
      * discriminate.
      * intros [= _ _ <- _]. auto.
      * destruct (NotifyLostOnFound.promiseAll _); discriminate.
Qed.

Lemma C10_empty_check_first_witness :
  fst (NotifyLostOnFound.handler (scenarioWorld None accepting)
         inlineBooksRequest) =
    Responded (respond 200 (BNoRecipients (js "No recipients to notify") []))
  /\
  ([js "a@b.com"; js "c@d.com"] <> [] /\
   NotifyLostOnFound.resolved (scenarioWorld None accepting) inlineRequest
     = Some [js "a@b.com"; js "c@d.com"] /\
   truthyOpt (RESEND_API_KEY (scenarioWorld None accepting)) = false).
Proof.
  split.
  - apply (proj1 (C10_empty_check_first (scenarioWorld None accepting)
                    inlineBooksRequest)). reflexivity.
  - apply (proj2 (C10_empty_check_first (scenarioWorld None accepting)
                    inlineRequest) 200 NotifyLostOnFound.notConfigured
             [js "a@b.com"; js "c@d.com"]
             (js "New found item in Electronics may match your lost item")).
    reflexivity.
Defined.

(** The lookup variant refuses to run without the e-mail credential. *)
Lemma lookup_missing_key w req :
  truthyOpt (RESEND_API_KEY w) = false ->
  NotifyMatches.resolved w req = None /\
  snd (NotifyMatches.handler w req) = noCalls /\
  (jseqb (method req) (js "POST") = true ->
   truthyOpt (SUPABASE_URL w) = true ->
   truthyOpt (SUPABASE_SERVICE_ROLE_KEY w) = true ->
   fst (NotifyMatches.handler w req) =
     Responded (respond 500 (errorBody "Missing RESEND_API_KEY secret"))).
Proof.
  intros Hk.
  assert (forall cfg, NotifyMatches.config w req <> inr cfg) as Hc.
  { intros cfg. unfold NotifyMatches.config. rewrite Hk. cbn [negb].
    repeat match goal with
           | |- context [if ?b then _ else _] => destruct b
           end; discriminate. }
  unfold NotifyMatches.resolved, NotifyMatches.handler.
  destruct (NotifyMatches.config w req) as [r|cfg] eqn:E;
    [|now destruct (Hc cfg)].
  repeat split. intros Hm Hu Hs. simpl. f_equal.
  unfold NotifyMatches.config in E. rewrite Hk, Hu, Hs, Hm in E.
  destruct (jseqb (method req) (js "OPTIONS")) eqn:Ho.
  - apply jseqb_eq in Ho, Hm. rewrite Ho in Hm. discriminate.
  - simpl in E. congruence.
Qed.

(** C1, as stated, fails on the lookup variant: with the credential absent
    the scenario request, which determines two recipients, is answered 500. *)
Lemma C1_missing_key_counterexample :
  ~ missingKeyIsNoOp NotifyMatches.handler NotifyMatches.determined.
Proof.
  intros H.
  destruct (H (scenarioWorld None accepting) lookupRequest
              [js "a@b.com"; js "c@d.com"])
    as (r & t & E & Hs & _); [reflexivity | reflexivity | discriminate |].
  vm_compute in E. injection E as <- _. discriminate Hs.
Qed.

(** C1 (amended). Inline variant: with the e-mail credential absent, a
    request that resolves a non-empty recipient list is answered 200 with
    that list and no delivery is attempted.  Lookup variant: the credential
    is checked before anything is resolved, and its absence is answered 500
    "Missing RESEND_API_KEY secret", again without any delivery attempt. *)
Theorem C1_missing_key :
  missingKeyIsNoOp NotifyLostOnFound.handler NotifyLostOnFound.resolved
  /\
  (forall w req,
     truthyOpt (RESEND_API_KEY w) = false ->
     NotifyMatches.resolved w req = None /\
     snd (NotifyMatches.handler w req) = noCalls /\
     (jseqb (method req) (js "POST") = true ->
      truthyOpt (SUPABASE_URL w) = true ->
      truthyOpt (SUPABASE_SERVICE_ROLE_KEY w) = true ->
      fst (NotifyMatches.handler w req) =
        Responded (respond 500 (errorBody "Missing RESEND_API_KEY secret")))).
Proof.
  split; [|exact lookup_missing_key].
  intros w req l Hk Hr Hne.
  apply inline_resolved_inv in Hr as (found & lostItems & calls & Hv & Hr).
  unfold NotifyLostOnFound.handler. rewrite Hv, Hr.
  destruct (inline_deliver_cases w found l)
    as [[-> _]|[(_ & _ & ->)|(_ & Hk' & _)]]; [congruence| |congruence].
  do 2 eexists. split; [reflexivity|]. simpl. auto.
Qed.

Lemma C1_missing_key_witness :
  (exists r t,
     NotifyLostOnFound.handler (scenarioWorld None accepting) inlineRequest
       = (Responded r, t) /\
     status r = 200 /\
     listsIntended [js "a@b.com"; js "c@d.com"] (rbody r) /\ sends t = [])
  /\
  fst (NotifyMatches.handler (scenarioWorld None accepting) lookupRequest) =
    Responded (respond 500 (errorBody "Missing RESEND_API_KEY secret")).
Proof.
  split.
  - apply (proj1 C1_missing_key); [reflexivity | reflexivity | discriminate].
  - apply (proj2 C1_missing_key); reflexivity.
Defined.

(** ** Recipients form a set *)

Lemma fold_left_invariant (A B : Type) (P : A -> Prop) (f : A -> B -> A)
    (l : list B) (a : A) :
  P a -> (forall s x, In x l -> P s -> P (f s x)) -> P (fold_left f l a).
Proof.
  revert a. induction l as [|x l IH]; intros a Ha Hf; simpl; [assumption|].
  apply IH; [apply Hf; [now left | assumption]|].
  intros s y Hy. apply Hf. now right.
Qed.

Lemma addLookup_NoDup r s :
  NoDup s -> NoDup (NotifyLostOnFound.addLookup r s).
Proof.
  intros H. destruct r as [| |[e|]]; simpl; try assumption.
  destruct (truthy e); [now apply setAdd_NoDup | assumption].
Qed.

Lemma lookup_addLookup_same r s :
  NotifyMatches.addLookup r s = NotifyLostOnFound.addLookup r s.
Proof. now destruct r as [| |[e|]]. Qed.

Lemma inline_collect_NoDup found lostItems :
  NoDup (fst (NotifyLostOnFound.collect found lostItems)) /\
  NoDup (snd (NotifyLostOnFound.collect found lostItems)).
Proof.
  unfold NotifyLostOnFound.collect.
  apply fold_left_invariant with (P := fun st => NoDup (fst st) /\ NoDup (snd st)).
  - split; constructor.
  - intros [rs ms] it _ [Hr Hm]. unfold NotifyLostOnFound.classify.
    destruct (jseqb _ _); [now split|].
    destruct (isEmail _); simpl in *; split;
      try assumption; now apply setAdd_NoDup.
Qed.

Lemma inline_lookupAll_NoDup w uids rs calls :
  NoDup rs -> NoDup (fst (NotifyLostOnFound.lookupAll w uids rs calls)).
Proof.
  revert rs calls. induction uids as [|u uids IH]; intros rs calls H; simpl;
    [assumption|].
  apply IH. now apply addLookup_NoDup.
Qed.

Lemma inline_resolve_NoDup w found lostItems :
  NoDup (fst (NotifyLostOnFound.resolve w found lostItems)).
Proof.
  unfold NotifyLostOnFound.resolve.
  pose proof (inline_collect_NoDup found lostItems) as [H _].
  destruct (NotifyLostOnFound.collect found lostItems) as [rs ms].
  now apply inline_lookupAll_NoDup.
Qed.

Lemma lookup_resolve_NoDup w lostItems :
  NoDup (fst (NotifyMatches.resolve w lostItems)).
Proof.
  unfold NotifyMatches.resolve.
  apply fold_left_invariant with (P := fun st => NoDup (fst st)).
  - constructor.
  - intros [s calls] li _ H. unfold NotifyMatches.step. simpl in H.
    destruct (NotifyMatches.hasAt _); [now apply setAdd_NoDup|].
    destruct (truthy _); [|assumption]. simpl.
    rewrite lookup_addLookup_same. now apply addLookup_NoDup.
Qed.

(** The inline variant calls the provider once per entry of [toList]. *)
Lemma inline_dispatch_to w mk first toList :
  (forall to, sr_to (mk to) = to) ->
  map sr_to (map fst (NotifyLostOnFound.dispatch w mk first toList)) = toList.
Proof.
  intros Hmk. revert first.
  induction toList as [|to rest IH]; intros first; simpl; [reflexivity|].
  now rewrite Hmk, IH.
Qed.

(** The lookup variant calls the provider once per entry of [toEmails]. *)
Lemma lookup_sendAll_issued w mk toEmails sent failures issued :
  snd (NotifyMatches.sendAll w mk toEmails sent failures issued)
  = issued ++ map mk toEmails.
Proof.
  revert sent failures issued.
  induction toEmails as [|to rest IH]; intros sent failures issued; simpl.
  - now rewrite app_nil_r.
  - destruct (fetch w _ _) as [m|[|] [t|m]]; rewrite IH, <- app_assoc;
      reflexivity.
Qed.

(** What each variant dispatches to, given what it resolved. *)
Lemma inline_dispatched w req l :
  NotifyLostOnFound.resolved w req = Some l ->
  dispatchedTo (snd (NotifyLostOnFound.handler w req))
  = if truthyOpt (RESEND_API_KEY w) then l else [].
Proof.
  intros H. apply inline_resolved_inv in H as (found & lostItems & calls & Hv & Hr).
  unfold NotifyLostOnFound.handler, dispatchedTo. rewrite Hv, Hr.
  destruct (inline_deliver_cases w found l)
    as [[-> ->]|[(_ & -> & ->)|(_ & -> & cs & -> & ->)]]; simpl.
  - now destruct (truthyOpt _).
  - reflexivity.
  - now apply inline_dispatch_to.
Qed.

Lemma lookup_dispatched w req l :
  NotifyMatches.resolved w req = Some l ->
  dispatchedTo (snd (NotifyMatches.handler w req)) = l.
Proof.
  intros H. apply lookup_resolved_inv in H
    as (cfg & foundItem & lostItems & calls & Hc & Hg & Hr).
  unfold NotifyMatches.handler, dispatchedTo, NotifyMatches.deliver.
  rewrite Hc, Hg, Hr.
  match goal with
  | |- context [NotifyMatches.sendAll ?w ?mk ?l ?s ?f ?i] =>
      pose proof (lookup_sendAll_issued w mk l s f i) as Hs;
      destruct (NotifyMatches.sendAll w mk l s f i) as [[sent failures] issued]
  end.
  simpl in *. subst issued. rewrite map_map. simpl. apply map_id.
Qed.

Lemma unresolved_no_dispatch v w req :
  resolvedBy v w req = None -> dispatchedTo (snd (serve v w req)) = [].
Proof.
  destruct v; simpl.
  - unfold NotifyLostOnFound.resolved, NotifyLostOnFound.handler.
    now destruct (NotifyLostOnFound.validate w req) as [r|[found lostItems]].
  - unfold NotifyMatches.resolved, NotifyMatches.determined,
      NotifyMatches.handler.
    destruct (NotifyMatches.config w req) as [r|cfg]; [reflexivity|].
    now destruct (NotifyMatches.gather w req) as [r|[foundItem lostItems]].
Qed.

Lemma resolved_NoDup v w req l : resolvedBy v w req = Some l -> NoDup l.
Proof.
  destruct v; simpl; intros H.
  - apply inline_resolved_inv in H as (found & lostItems & calls & _ & Hr).
    pose proof (inline_resolve_NoDup w found lostItems) as Hn.
    now rewrite Hr in Hn.
  - apply lookup_resolved_inv in H as (cfg & f & lostItems & calls & _ & _ & Hr).
    pose proof (lookup_resolve_NoDup w lostItems) as Hn.
    now rewrite Hr in Hn.
Qed.

Example shared_address_once :
  dispatchedTo (snd (serve Inline sharedWorld inlineRequest)) = [js "a@b.com"]
  /\ dispatchedTo (snd (serve Lookup sharedWorld lookupRequest)) = [js "a@b.com"].
Proof. split; reflexivity. Qed.

(** ** The scenario of the specification *)

(** C9. Found item (Electronics, "iPhone 13", reporter u1); lost candidates
    (u2, "a@b.com") and (u3, no contact), the account of u3 holding
    "c@d.com".  Both variants resolve exactly ["a@b.com"; "c@d.com"], look
    up u3 only, call the provider once for each address, and answer 200
    with a summary accounting for two recipients, whatever the provider
    answers (inline variant) or does (lookup variant). *)
Theorem C9_scenario (ans : nat -> SendRequest -> bool * TextResult)
    (provider : nat -> SendRequest -> FetchResult) :
  let wi := scenarioWorld (Some (js "re_key")) (answering ans) in
  let wl := scenarioWorld (Some (js "re_key")) provider in
  (NotifyLostOnFound.resolved wi inlineRequest
     = Some [js "a@b.com"; js "c@d.com"] /\
   lookups (snd (NotifyLostOnFound.handler wi inlineRequest)) = [js "u3"] /\
   dispatchedTo (snd (NotifyLostOnFound.handler wi inlineRequest))
     = [js "a@b.com"; js "c@d.com"] /\
   exists successes failures,
     fst (NotifyLostOnFound.handler wi inlineRequest)
       = Responded (respond 200 (BResults successes failures)) /\
     List.length successes + List.length failures = 2)
  /\
  (NotifyMatches.resolved wl lookupRequest
     = Some [js "a@b.com"; js "c@d.com"] /\
   lookups (snd (NotifyMatches.handler wl lookupRequest)) = [js "u3"] /\
   dispatchedTo (snd (NotifyMatches.handler wl lookupRequest))
     = [js "a@b.com"; js "c@d.com"] /\
   exists sent failures,
     fst (NotifyMatches.handler wl lookupRequest)
       = Responded (respond 200 (BSummary (js "Electronics") 2 sent failures)) /\
     sent + List.length failures = 2).
Proof.
  intros wi wl. split.
  - split; [reflexivity|]. subst wi. vm_compute.
    repeat match goal with
           | |- context [ans ?n ?r] => destruct (ans n r) as [[|] ?]
           end; repeat split; do 2 eexists; split; reflexivity.
  - split; [reflexivity|]. subst wl. vm_compute.
    repeat match goal with
           | |- context [provider ?n ?r] => destruct (provider n r) as [?|[|] [?|?]]
           end; repeat split; do 2 eexists; split; reflexivity.
Qed.

Example scenario_all_accepted :
  NotifyLostOnFound.handler (scenarioWorld (Some (js "re_key")) accepting)
    inlineRequest
  = (Responded (respond 200 (BResults [js "a@b.com"; js "c@d.com"] [])),
     {| lookups := [js "u3"];
        sends := map (NotifyLostOnFound.mkSend (js "re_key")
                        (js "notifications@no-reply.local")
                        (js "New found item in Electronics may match your lost item")
                        (NotifyLostOnFound.htmlOf scenarioFound))
                   [js "a@b.com"; js "c@d.com"] |})
  /\ fst (NotifyMatches.handler (scenarioWorld (Some (js "re_key")) accepting)
            lookupRequest)
     = Responded (respond 200 (BSummary (js "Electronics") 2 2 [])).
Proof. split; reflexivity. Qed.

(** ** Where recipients come from *)

Section FoldMembership.
Variables (S B A : Type) (f : S -> B -> S) (proj : S -> list A).
Variable Q : B -> A -> Prop.

Lemma fold_left_into :
  (forall st x a, In a (proj (f st x)) -> In a (proj st) \/ Q x a) ->
  forall l st a,
    In a (proj (fold_left f l st)) ->
    In a (proj st) \/ exists x, In x l /\ Q x a.
Proof.
  intros Hf l. induction l as [|x l IH]; intros st a H; simpl in H.
  - now left.
  - apply IH in H as [H|(y & Hy & Hq)].
    + apply Hf in H as [H|H]; [now left|].
      right. exists x. split; [now left | assumption].
    + right. exists y. split; [now right | assumption].
Qed.

Lemma fold_left_from :
  (forall st x a, In a (proj st) -> In a (proj (f st x))) ->
  (forall st x a, Q x a -> In a (proj (f st x))) ->
  forall l st a,
    In a (proj st) \/ (exists x, In x l /\ Q x a) ->
    In a (proj (fold_left f l st)).
Proof.
  intros Hkeep Hadd l. induction l as [|x l IH]; intros st a H; simpl.
  - destruct H as [H|(y & [] & _)]. assumption.
  - apply IH. destruct H as [H|(y & [<-|Hy] & Hq)].
    + left. now apply Hkeep.
    + left. now apply Hadd.
    + right. now exists y.
Qed.
End FoldMembership.

(** One round of the first loop of the inline variant. *)
Lemma inline_classify_recipients found st x a :
  In a (fst (NotifyLostOnFound.classify found st x)) <->
  In a (fst st) \/
  (notOwnedBy (fp_user_id found) x = true /\
   isEmail (li_contact_info x) = true /\
   a = trim (stringOf (li_contact_info x))).
Proof.
  destruct st as [rs ms]. unfold NotifyLostOnFound.classify, notOwnedBy.
  destruct (jseqb _ _); [|destruct (isEmail _)]; simpl;
    rewrite ?setAdd_In; intuition congruence.
Qed.

Lemma inline_classify_missing found st x u :
  In u (snd (NotifyLostOnFound.classify found st x)) <->
  In u (snd st) \/
  (notOwnedBy (fp_user_id found) x = true /\
   isEmail (li_contact_info x) = false /\
   u = li_user_id x).
Proof.
  destruct st as [rs ms]. unfold NotifyLostOnFound.classify, notOwnedBy.
  destruct (jseqb _ _); [|destruct (isEmail _)]; simpl;
    rewrite ?setAdd_In; intuition congruence.
Qed.

(** First loop of the inline variant: the recipients are the trimmed
    contacts of the e-mail-shaped items not owned by the reporter; the
    owners to look up are those of the other items not owned by the
    reporter. *)
Lemma inline_collect_recipients found lostItems a :
  In a (fst (NotifyLostOnFound.collect found lostItems)) <->
  exists it, In it lostItems /\ notOwnedBy (fp_user_id found) it = true /\
             isEmail (li_contact_info it) = true /\
             a = trim (stringOf (li_contact_info it)).
Proof.
  unfold NotifyLostOnFound.collect.
  set (Q := fun (x : LostItemRow) (b : jsstring) =>
              notOwnedBy (fp_user_id found) x = true /\
              isEmail (li_contact_info x) = true /\
              b = trim (stringOf (li_contact_info x))).
  split.
  - intros H. apply (fold_left_into (NotifyLostOnFound.classify found) fst Q) in H as [[]|H];
      [exact H|].
    intros st x b. apply inline_classify_recipients.
  - intros H. apply (fold_left_from (NotifyLostOnFound.classify found) fst Q); [| |right; exact H].
    + intros st x b Hb. apply inline_classify_recipients. now left.
    + intros st x b Hb. apply inline_classify_recipients. now right.
Qed.

Lemma inline_collect_missing found lostItems u :
  In u (snd (NotifyLostOnFound.collect found lostItems)) <->
  exists it, In it lostItems /\ notOwnedBy (fp_user_id found) it = true /\
             isEmail (li_contact_info it) = false /\
             u = li_user_id it.
Proof.
  unfold NotifyLostOnFound.collect.
  set (Q := fun (x : LostItemRow) (b : jsstring) =>
              notOwnedBy (fp_user_id found) x = true /\
              isEmail (li_contact_info x) = false /\
              b = li_user_id x).
  split.
  - intros H. apply (fold_left_into (NotifyLostOnFound.classify found) snd Q) in H as [[]|H];
      [exact H|].
    intros st x b. apply inline_classify_missing.
  - intros H. apply (fold_left_from (NotifyLostOnFound.classify found) snd Q); [| |right; exact H].
    + intros st x b Hb. apply inline_classify_missing. now left.
    + intros st x b Hb. apply inline_classify_missing. now right.
Qed.

(** Second loop of the inline variant: one lookup per owner, in order;
    recipients are kept, and what is added was answered by the account
    service for one of the owners. *)
Lemma inline_lookupAll_calls w uids rs calls :
  snd (NotifyLostOnFound.lookupAll w uids rs calls) = calls ++ uids.
Proof.
  revert rs calls. induction uids as [|u uids IH]; intros rs calls; simpl.
  - now rewrite app_nil_r.
  - now rewrite IH, <- app_assoc.
Qed.

Lemma addLookup_In r rs a :
  In a (NotifyLostOnFound.addLookup r rs) ->
  In a rs \/ (r = LookupUser (Some a) /\ truthy a = true).
Proof.
  destruct r as [| |[e|]]; simpl; auto.
  destruct (truthy e) eqn:E; auto. rewrite setAdd_In. intros [->|H]; auto.
Qed.

Lemma addLookup_keeps r rs a :
  In a rs -> In a (NotifyLostOnFound.addLookup r rs).
Proof.
  intros H. destruct r as [| |[e|]]; simpl; auto.
  destruct (truthy e); auto. now apply setAdd_keeps.
Qed.

Lemma inline_lookupAll_In w uids rs calls a :
  In a (fst (NotifyLostOnFound.lookupAll w uids rs calls)) ->
  In a rs \/
  exists n u, In u uids /\ getUserById w n u = LookupUser (Some a) /\
              truthy a = true.
Proof.
  revert rs calls. induction uids as [|u uids IH]; intros rs calls H;
    simpl in H; [now left|].
  apply IH in H as [H|(n & u' & Hu & Hl)].
  - apply addLookup_In in H as [H|[H Ht]]; [now left|].
    right. exists (List.length calls), u. split; [now left | now split].
  - right. exists n, u'. split; [now right | assumption].
Qed.

Lemma inline_lookupAll_keeps w uids rs calls a :
  In a rs -> In a (fst (NotifyLostOnFound.lookupAll w uids rs calls)).
Proof.
  revert rs calls. induction uids as [|u uids IH]; intros rs calls H; simpl;
    [assumption|].
  apply IH. now apply addLookup_keeps.
Qed.

Lemma inline_resolve_In w found lostItems a :
  In a (fst (NotifyLostOnFound.resolve w found lostItems)) ->
  exists it, In it lostItems /\ notOwnedBy (fp_user_id found) it = true /\
             obtainedFrom isEmail w a it.
Proof.
  unfold NotifyLostOnFound.resolve.
  pose proof (inline_collect_recipients found lostItems a) as Hr.
  pose proof (inline_collect_missing found lostItems) as Hm.
  destruct (NotifyLostOnFound.collect found lostItems) as [rs ms].
  simpl in Hr, Hm. intros H.
  apply inline_lookupAll_In in H as [H|(n & u & Hu & Hl & Ht)].
  - apply Hr in H as (it & Hi & Hn & He & Ha).
    exists it. repeat split; try assumption. left. now split.
  - apply Hm in Hu as (it & Hi & Hn & He & ->).
    exists it. repeat split; try assumption. right.
    repeat split; try assumption. now exists n.
Qed.

Lemma inline_resolve_direct w found lostItems it :
  In it lostItems -> notOwnedBy (fp_user_id found) it = true ->
  isEmail (li_contact_info it) = true ->
  In (trim (stringOf (li_contact_info it)))
     (fst (NotifyLostOnFound.resolve w found lostItems)).
Proof.
  intros Hi Hn He. unfold NotifyLostOnFound.resolve.
  pose proof (inline_collect_recipients found lostItems
                (trim (stringOf (li_contact_info it)))) as Hr.
  destruct (NotifyLostOnFound.collect found lostItems) as [rs ms].
  apply inline_lookupAll_keeps. apply Hr. now exists it.
Qed.

Lemma inline_resolve_calls w found lostItems u :
  In u (snd (NotifyLostOnFound.resolve w found lostItems)) <->
  exists it, In it lostItems /\ notOwnedBy (fp_user_id found) it = true /\
             isEmail (li_contact_info it) = false /\ u = li_user_id it.
Proof.
  unfold NotifyLostOnFound.resolve.
  pose proof (inline_collect_missing found lostItems u) as Hm.
  destruct (NotifyLostOnFound.collect found lostItems) as [rs ms].
  now rewrite inline_lookupAll_calls.
Qed.

(** Rows owned by the reporter leave the state of the first loop alone. *)
Lemma inline_collect_filter found lostItems st :
  fold_left (NotifyLostOnFound.classify found)
    (filter (notOwnedBy (fp_user_id found)) lostItems) st
  = fold_left (NotifyLostOnFound.classify found) lostItems st.
Proof.
  revert st. induction lostItems as [|x l IH]; intros st; simpl;
    [reflexivity|].
  unfold notOwnedBy at 1.
  destruct (jseqb (li_user_id x) (fp_user_id found)) eqn:E; simpl.
  - rewrite IH. f_equal. unfold NotifyLostOnFound.classify.
    destruct st as [rs ms]. now rewrite E.
  - apply IH.
Qed.

(** The recipient loop of the lookup variant. *)
Lemma lookup_step_In w st x a :
  In a (fst (NotifyMatches.step w st x)) ->
  In a (fst st) \/ obtainedFrom NotifyMatches.hasAt w a x.
Proof.
  destruct st as [s calls]. unfold NotifyMatches.step, obtainedFrom.
  destruct (NotifyMatches.hasAt _); simpl.
  - rewrite setAdd_In. intros [->|H]; auto.
  - destruct (truthy _); simpl; auto. rewrite lookup_addLookup_same.
    intros H. apply addLookup_In in H as [H|[H Ht]]; [now left|].
    right. right. repeat split; try assumption. eauto.
Qed.

Lemma lookup_step_keeps w st x a :
  In a (fst st) -> In a (fst (NotifyMatches.step w st x)).
Proof.
  destruct st as [s calls]. unfold NotifyMatches.step. simpl. intros H.
  destruct (NotifyMatches.hasAt _); simpl; [now apply setAdd_keeps|].
  destruct (truthy _); simpl; [|assumption].
  rewrite lookup_addLookup_same. now apply addLookup_keeps.
Qed.

Lemma lookup_step_calls w st x u :
  In u (snd (NotifyMatches.step w st x)) <->
  In u (snd st) \/
  (NotifyMatches.hasAt (li_contact_info x) = false /\
   truthy (li_user_id x) = true /\ u = li_user_id x).
Proof.
  destruct st as [s calls]. unfold NotifyMatches.step.
  destruct (NotifyMatches.hasAt _); [|destruct (truthy _)]; simpl;
    rewrite ?in_app_iff; simpl; intuition congruence.
Qed.

Lemma lookup_resolve_In w lostItems a :
  In a (fst (NotifyMatches.resolve w lostItems)) ->
  exists it, In it lostItems /\ obtainedFrom NotifyMatches.hasAt w a it.
Proof.
  unfold NotifyMatches.resolve. intros H.
  apply (fold_left_into (NotifyMatches.step w) fst
           (fun x b => obtainedFrom NotifyMatches.hasAt w b x))
    in H as [[]|H]; [exact H|].
  intros st x b. apply lookup_step_In.
Qed.

Lemma lookup_resolve_direct w lostItems it :
  In it lostItems -> NotifyMatches.hasAt (li_contact_info it) = true ->
  In (trim (stringOf (li_contact_info it)))
     (fst (NotifyMatches.resolve w lostItems)).
Proof.
  intros Hi Hd. unfold NotifyMatches.resolve.
  apply (fold_left_from (NotifyMatches.step w) fst
           (fun x b => NotifyMatches.hasAt (li_contact_info x) = true /\
                       b = trim (stringOf (li_contact_info x)))).
  - intros st x b. apply lookup_step_keeps.
  - intros [s calls] x b [Hx ->]. unfold NotifyMatches.step. rewrite Hx.
    simpl. apply setAdd_In. now left.
  - right. now exists it.
Qed.

Lemma lookup_resolve_calls w lostItems u :
  In u (snd (NotifyMatches.resolve w lostItems)) <->
  exists it, In it lostItems /\
             NotifyMatches.hasAt (li_contact_info it) = false /\
             truthy (li_user_id it) = true /\ u = li_user_id it.
Proof.
  unfold NotifyMatches.resolve.
  set (Q := fun (x : LostItemRow) (b : jsstring) =>
              NotifyMatches.hasAt (li_contact_info x) = false /\
              truthy (li_user_id x) = true /\ b = li_user_id x).
  split.
  - intros H. apply (fold_left_into (NotifyMatches.step w) snd Q) in H
      as [[]|H]; [exact H|].
    intros st x b. apply lookup_step_calls.
  - intros H. apply (fold_left_from (NotifyMatches.step w) snd Q);
      [| |right; exact H].
    + intros st x b Hb. apply lookup_step_calls. now left.
    + intros st x b Hb. apply lookup_step_calls. now right.
Qed.

(** The lost rows the lookup variant works on come from the query that
    excludes the reporter, when the found item names one. *)
Lemma lookup_gather_rows w req foundItem lostItems :
  NotifyMatches.gather w req = inr (foundItem, lostItems) ->
  exists data,
    selectLost w (fr_category foundItem)
      (if truthy (fr_user_id foundItem) then Some (fr_user_id foundItem)
       else None) = QData data /\
    lostItems = rowsOf data.
Proof.
  unfold NotifyMatches.gather.
  destruct (body req) as [| |fi [fid|]]; try discriminate.
  destruct (truthy fid); simpl; [|discriminate].
  destruct (selectFoundById w fid) as [m|[f|]]; try discriminate.
  destruct (selectLost w (fr_category f) _) as [m|data] eqn:E;
    [discriminate|].
  intros [= <- <-]. now exists data.
Qed.

(** ** The reporter's own lost items *)

(** The reference store honours the owner filter. *)
Lemma table_store_excludes tbl accounts key provider :
  storeExcludesOwner (deployment tbl accounts key provider).
Proof.
  intros c u rows. simpl. unfold tableSelectLost. intros [= <-].
  apply Forall_forall. intros r Hr.
  apply in_map_iff in Hr as (x & <- & Hx).
  apply filter_In in Hx as [_ Hx]. unfold lostFilter in Hx.
  apply andb_true_iff in Hx as [_ Hx]. apply negb_true_iff in Hx.
  simpl. now apply jseqb_neq.
Qed.

Lemma notOwnedBy_neq reporter it :
  notOwnedBy reporter it = true <-> li_user_id it <> reporter.
Proof. unfold notOwnedBy. now rewrite negb_true_iff, jseqb_neq. Qed.

(** C3. No lost item owned by the reporter R of the found item contributes
    a recipient.  Inline variant: the rows owned by R can be removed from
    the returned rows without changing the recipients or the lookups, and
    every recipient is obtained from a row not owned by R.  Lookup variant
    (the found item naming a reporter, the store honouring the owner filter
    of the query): no returned row is owned by R, and every recipient is
    obtained from such a row. *)
Theorem C3_reporter_excluded :
  (forall w found lostItems,
     NotifyLostOnFound.resolve w found lostItems
     = NotifyLostOnFound.resolve w found
         (filter (notOwnedBy (fp_user_id found)) lostItems)
     /\
     forall a, In a (fst (NotifyLostOnFound.resolve w found lostItems)) ->
       exists it, In it lostItems /\ li_user_id it <> fp_user_id found /\
                  obtainedFrom isEmail w a it)
  /\
  (forall w req foundItem lostItems,
     storeExcludesOwner w ->
     truthy (fr_user_id foundItem) = true ->
     NotifyMatches.gather w req = inr (foundItem, lostItems) ->
     Forall (fun it => li_user_id it <> fr_user_id foundItem) lostItems /\
     forall a, In a (fst (NotifyMatches.resolve w lostItems)) ->
       exists it, In it lostItems /\ li_user_id it <> fr_user_id foundItem /\
                  obtainedFrom NotifyMatches.hasAt w a it).
Proof.
  split.
  - intros w found lostItems. split.
    + unfold NotifyLostOnFound.resolve, NotifyLostOnFound.collect.
      now rewrite inline_collect_filter.
    + intros a H. apply inline_resolve_In in H as (it & Hi & Hn & Ho).
      exists it. repeat split; try assumption. now apply notOwnedBy_neq.
  - intros w req foundItem lostItems Hstore HR Hg.
    apply lookup_gather_rows in Hg as (data & Hq & ->). rewrite HR in Hq.
    assert (Forall (fun it => li_user_id it <> fr_user_id foundItem)
              (rowsOf data)) as Hall.
    { destruct data as [rows|]; [|constructor]. exact (Hstore _ _ _ Hq). }
    split; [assumption|].
    intros a H. apply lookup_resolve_In in H as (it & Hi & Ho).
    exists it. repeat split; try assumption.
    exact (proj1 (Forall_forall _ _) Hall it Hi).
Qed.

Lemma C3_reporter_excluded_witness :
  (exists it,
     In it (map toLost (filter (lostFilter (js "Electronics") None) reporterTable))
     /\ li_user_id it <> js "u1"
     /\ obtainedFrom isEmail reporterWorld (js "a@b.com") it)
  /\
  Forall (fun it => li_user_id it <> js "u1")
    (map toLost (filter (lostFilter (js "Electronics") (Some (js "u1")))
                   reporterTable)).
Proof.
  split.
  - apply (proj2 (proj1 C3_reporter_excluded reporterWorld scenarioFound
                    (map toLost (filter (lostFilter (js "Electronics") None)
                                   reporterTable)))).
    vm_compute. now left.
  - destruct (proj2 C3_reporter_excluded reporterWorld lookupRequest
                (toFound (item "f1" "found" "Electronics" "u1" None))
                (map toLost (filter (lostFilter (js "Electronics")
                                       (Some (js "u1"))) reporterTable)))
      as [H _];
      [apply table_store_excludes | reflexivity | reflexivity | exact H].
Defined.

Example reporter_not_notified :
  fst (NotifyLostOnFound.resolve reporterWorld scenarioFound
         (map toLost (filter (lostFilter (js "Electronics") None) reporterTable)))
    = [js "a@b.com"; js "c@d.com"]
  /\ NotifyMatches.resolved reporterWorld lookupRequest
     = Some [js "a@b.com"; js "c@d.com"].
Proof. split; reflexivity. Qed.

(** ** E-mail-shaped contact strings are used directly *)

Lemma emailShaped_isEmail contact :
  emailShaped contact -> isEmail contact = true.
Proof. intros (c & -> & H). now apply emailShape_isEmail. Qed.

Lemma emailShaped_hasAt contact :
  emailShaped contact -> NotifyMatches.hasAt contact = true.
Proof. intros H. now apply isEmail_hasAt, emailShaped_isEmail. Qed.

(** C5. A candidate whose contact string matches the e-mail shape has that
    string (unchanged) among the resolved recipients; its round of the
    recipient loop adds the string and schedules or makes no account lookup;
    and every account lookup a request makes is for the owner of a candidate
    whose contact is not of the e-mail shape.  Both variants. *)
Theorem C5_email_contact_direct :
  (forall w found lostItems it c,
     In it lostItems -> li_user_id it <> fp_user_id found ->
     li_contact_info it = Some c -> Matches emailRegex c ->
     In c (fst (NotifyLostOnFound.resolve w found lostItems)) /\
     (forall rs ms,
        NotifyLostOnFound.classify found (rs, ms) it = (setAdd c rs, ms)))
  /\
  (forall w found lostItems u,
     In u (snd (NotifyLostOnFound.resolve w found lostItems)) ->
     exists it, In it lostItems /\ li_user_id it = u /\
                li_user_id it <> fp_user_id found /\
                ~ emailShaped (li_contact_info it))
  /\
  (forall w lostItems it c,
     In it lostItems ->
     li_contact_info it = Some c -> Matches emailRegex c ->
     In c (fst (NotifyMatches.resolve w lostItems)) /\
     (forall s calls,
        NotifyMatches.step w (s, calls) it = (setAdd c s, calls)))
  /\
  (forall w lostItems u,
     In u (snd (NotifyMatches.resolve w lostItems)) ->
     exists it, In it lostItems /\ li_user_id it = u /\
                ~ emailShaped (li_contact_info it)).
Proof.
  split; [|split; [|split]].
  - intros w found lostItems it c Hin Hown Hc Hm.
    destruct (emailShape_isEmail Hm) as [He Ht]. split.
    + rewrite <- Ht at 1. replace c with (stringOf (li_contact_info it))
        by now rewrite Hc.
      apply inline_resolve_direct; try assumption.
      * now apply notOwnedBy_neq.
      * now rewrite Hc.
    + intros rs ms. unfold NotifyLostOnFound.classify.
      apply jseqb_neq in Hown. rewrite Hown, Hc, He. simpl. now rewrite Ht.
  - intros w found lostItems u H.
    apply inline_resolve_calls in H as (it & Hi & Hn & He & ->).
    exists it. repeat split; try assumption.
    + now apply notOwnedBy_neq.
    + intros Hs. apply emailShaped_isEmail in Hs. congruence.
  - intros w lostItems it c Hin Hc Hm.
    destruct (emailShape_isEmail Hm) as [He Ht]. split.
    + rewrite <- Ht at 1. replace c with (stringOf (li_contact_info it))
        by now rewrite Hc.
      apply lookup_resolve_direct; [assumption|].
      rewrite Hc. now apply isEmail_hasAt.
    + intros s calls. unfold NotifyMatches.step.
      rewrite Hc, (isEmail_hasAt _ He). simpl. now rewrite Ht.
  - intros w lostItems u H.
    apply lookup_resolve_calls in H as (it & Hi & Hd & _ & ->).
    exists it. repeat split; try assumption.
    intros Hs. apply emailShaped_hasAt in Hs. congruence.
Qed.

Lemma C5_email_contact_direct_witness :
  (In (js "a@b.com")
     (fst (NotifyLostOnFound.resolve (scenarioWorld None accepting)
             scenarioFound scenarioRows)) /\
   forall rs ms,
     NotifyLostOnFound.classify scenarioFound (rs, ms) candidateU2
     = (setAdd (js "a@b.com") rs, ms))
  /\
  (In (js "a@b.com")
     (fst (NotifyMatches.resolve (scenarioWorld None accepting) scenarioRows)) /\
   forall s calls,
     NotifyMatches.step (scenarioWorld None accepting) (s, calls) candidateU2
     = (setAdd (js "a@b.com") s, calls))
  /\
  (exists it, In it scenarioRows /\ li_user_id it = js "u3" /\
              li_user_id it <> fp_user_id scenarioFound /\
              ~ emailShaped (li_contact_info it)).
Proof.
  assert (Matches emailRegex (js "a@b.com")) as Hm
    by (apply regexTest_spec; reflexivity).
  split; [|split].
  - apply (proj1 C5_email_contact_direct);
      [left; reflexivity | discriminate | reflexivity | exact Hm].
  - apply (proj1 (proj2 (proj2 C5_email_contact_direct)));
      [left; reflexivity | reflexivity | exact Hm].
  - apply (proj1 (proj2 C5_email_contact_direct) (scenarioWorld None accepting)).
    vm_compute. now left.
Defined.

(** ** Failing account lookups *)

Lemma fold_left_ext (A B : Type) (f g : A -> B -> A) (l : list B) (a : A) :
  (forall s x, f s x = g s x) -> fold_left f l a = fold_left g l a.
Proof.
  intros H. revert a. induction l as [|x l IH]; intros a; simpl;
    [reflexivity|].
  now rewrite H, IH.
Qed.

Lemma addLookup_failed r rs :
  failed r = true ->
  NotifyLostOnFound.addLookup r rs = rs /\ NotifyMatches.addLookup r rs = rs.
Proof. destruct r; simpl; intros H; try discriminate; now split. Qed.

Lemma addLookup_silence r rs :
  NotifyLostOnFound.addLookup (if failed r then LookupUser None else r) rs
  = NotifyLostOnFound.addLookup r rs.
Proof. now destruct r. Qed.

Lemma inline_lookupAll_silence w uids rs calls :
  NotifyLostOnFound.lookupAll (silence w) uids rs calls
  = NotifyLostOnFound.lookupAll w uids rs calls.
Proof.
  revert rs calls. induction uids as [|u uids IH]; intros rs calls; simpl;
    [reflexivity|].
  now rewrite addLookup_silence, IH.
Qed.

Lemma lookup_step_silence w st x :
  NotifyMatches.step (silence w) st x = NotifyMatches.step w st x.
Proof.
  destruct st as [s calls]. unfold NotifyMatches.step. simpl.
  now rewrite !lookup_addLookup_same, addLookup_silence.
Qed.

Lemma inline_dispatch_silence w mk first toList :
  NotifyLostOnFound.dispatch (silence w) mk first toList
  = NotifyLostOnFound.dispatch w mk first toList.
Proof.
  revert first. induction toList as [|to rest IH]; intros first; simpl;
    [reflexivity|].
  now rewrite IH.
Qed.

Lemma inline_deliver_silence w found toList :
  NotifyLostOnFound.deliver (silence w) found toList
  = NotifyLostOnFound.deliver w found toList.
Proof.
  unfold NotifyLostOnFound.deliver. destruct toList as [|to rest];
    [reflexivity|].
  unfold NotifyLostOnFound.composeEmail, NotifyLostOnFound.fromAddress.
  cbn [silence RESEND_API_KEY FROM_EMAIL].
  now rewrite inline_dispatch_silence.
Qed.

Lemma lookup_sendAll_silence w mk toEmails sent failures issued :
  NotifyMatches.sendAll (silence w) mk toEmails sent failures issued
  = NotifyMatches.sendAll w mk toEmails sent failures issued.
Proof.
  revert sent failures issued.
  induction toEmails as [|to rest IH]; intros sent failures issued; simpl;
    [reflexivity|].
  destruct (fetch w _ _) as [m|[|] [t|m]]; now rewrite IH.
Qed.

Lemma serve_silence v w req : serve v w req = serve v (silence w) req.
Proof.
  destruct v; simpl.
  - unfold NotifyLostOnFound.handler.
    change (NotifyLostOnFound.validate (silence w) req)
      with (NotifyLostOnFound.validate w req).
    destruct (NotifyLostOnFound.validate w req) as [r|[found lostItems]];
      [reflexivity|].
    unfold NotifyLostOnFound.resolve.
    destruct (NotifyLostOnFound.collect found lostItems) as [rs ms].
    rewrite inline_lookupAll_silence.
    destruct (NotifyLostOnFound.lookupAll w ms rs []) as [toList calls].
    now rewrite inline_deliver_silence.
  - unfold NotifyMatches.handler.
    change (NotifyMatches.config (silence w) req)
      with (NotifyMatches.config w req).
    change (NotifyMatches.gather (silence w) req)
      with (NotifyMatches.gather w req).
    destruct (NotifyMatches.config w req) as [r|cfg]; [reflexivity|].
    destruct (NotifyMatches.gather w req) as [r|[foundItem lostItems]];
      [reflexivity|].
    unfold NotifyMatches.resolve.
    rewrite (fold_left_ext _ _ _ _ (lookup_step_silence w)).
    destruct (fold_left _ _ _) as [toEmails calls].
    unfold NotifyMatches.deliver. now rewrite lookup_sendAll_silence.
Qed.

(** The inline handler's promise rejects only if a provider call did. *)
Lemma promiseAll_rejects w mk first toList :
  NotifyLostOnFound.promiseAll
    (map snd (NotifyLostOnFound.dispatch w mk first toList)) = None ->
  exists n rq m, fetch w n rq = FetchThrows m.
Proof.
  revert first. induction toList as [|to rest IH]; intros first; simpl;
    [discriminate|].
  destruct (fetch w first (mk to)) as [m|ok text] eqn:E; simpl.
  - intros _. now exists first, (mk to), m.
  - destruct (NotifyLostOnFound.promiseAll _) eqn:Ep; [discriminate|].
    intros _. now apply (IH (S first)).
Qed.

Lemma resolved_outcome v w req l :
  resolvedBy v w req = Some l ->
  (exists r, fst (serve v w req) = Responded r /\ status r = 200)
  \/ (v = Inline /\ exists n rq m, fetch w n rq = FetchThrows m).
Proof.
  destruct v; simpl; intros H.
  - apply inline_resolved_inv in H as (found & lostItems & calls & Hv & Hr).
    unfold NotifyLostOnFound.handler. rewrite Hv, Hr.
    destruct (inline_deliver_cases w found l)
      as [[_ ->]|[(_ & _ & ->)|(_ & _ & cs & -> & ->)]]; simpl.
    + left. eexists. split; reflexivity.
    + left. eexists. split; reflexivity.
    + destruct (NotifyLostOnFound.promiseAll _) eqn:Ep.
      * left. eexists. split; reflexivity.
      * right. split; [reflexivity|]. now apply promiseAll_rejects in Ep.
  - apply lookup_resolved_inv in H
      as (cfg & foundItem & lostItems & calls & Hc & Hg & Hr).
    left. unfold NotifyMatches.handler, NotifyMatches.deliver.
    rewrite Hc, Hg, Hr.
    destruct (NotifyMatches.sendAll _ _ _ _ _ _) as [[sent failures] issued].
    eexists. split; reflexivity.
Qed.

(** C7. A failed account lookup (rejected promise or error result) adds
    nothing to the recipients; the handler behaves exactly as if the lookup
    had found a user without address; whatever the account service answers,
    the owner of every candidate without a directly usable contact is looked
    up; and a request that reached recipient resolution is answered 200
    unless, in the inline variant, a call to the e-mail provider rejected:
    the account service never makes the request abort. *)
Theorem C7_lookup_failure_skipped :
  (forall r rs,
     failed r = true ->
     NotifyLostOnFound.addLookup r rs = rs /\
     NotifyMatches.addLookup r rs = rs)
  /\ (forall v w req, serve v w req = serve v (silence w) req)
  /\ (forall w found lostItems it,
        In it lostItems -> li_user_id it <> fp_user_id found ->
        isEmail (li_contact_info it) = false ->
        In (li_user_id it)
           (snd (NotifyLostOnFound.resolve w found lostItems)))
  /\ (forall w lostItems it,
        In it lostItems -> NotifyMatches.hasAt (li_contact_info it) = false ->
        truthy (li_user_id it) = true ->
        In (li_user_id it) (snd (NotifyMatches.resolve w lostItems)))
  /\ (forall v w req l,
        resolvedBy v w req = Some l ->
        (exists r, fst (serve v w req) = Responded r /\ status r = 200)
        \/ (v = Inline /\ exists n rq m, fetch w n rq = FetchThrows m)).
Proof.
  split; [exact addLookup_failed|].
  split; [exact serve_silence|].
  split; [|split; [|exact resolved_outcome]].
  - intros w found lostItems it Hi Hn He. apply inline_resolve_calls.
    exists it. repeat split; try assumption. now apply notOwnedBy_neq.
  - intros w lostItems it Hi Hd Hu. apply lookup_resolve_calls.
    exists it. repeat split; assumption.
Qed.

Lemma C7_lookup_failure_skipped_witness :
  (NotifyLostOnFound.addLookup LookupThrows [js "a@b.com"] = [js "a@b.com"] /\
   NotifyMatches.addLookup LookupThrows [js "a@b.com"] = [js "a@b.com"])
  /\
  In (js "u3") (snd (NotifyLostOnFound.resolve downWorld scenarioFound
                       scenarioRows))
  /\
  In (js "u3") (snd (NotifyMatches.resolve downWorld scenarioRows))
  /\
  ((exists r, fst (serve Lookup downWorld lookupRequest) = Responded r /\
              status r = 200)
   \/ (Lookup = Inline /\
       exists n rq m, fetch downWorld n rq = FetchThrows m)).
Proof.
  split; [|split; [|split]].
  - apply (proj1 C7_lookup_failure_skipped). reflexivity.
  - apply (proj1 (proj2 (proj2 C7_lookup_failure_skipped)) downWorld
             scenarioFound scenarioRows candidateU3);
      [right; left; reflexivity | discriminate | reflexivity].
  - apply (proj1 (proj2 (proj2 (proj2 C7_lookup_failure_skipped))) downWorld
             scenarioRows candidateU3);
      [right; left; reflexivity | reflexivity | reflexivity].
  - apply (proj2 (proj2 (proj2 (proj2 C7_lookup_failure_skipped))) Lookup
             downWorld lookupRequest [js "a@b.com"]). reflexivity.
Defined.

Example accounts_down :
  serve Inline downWorld inlineRequest
  = (Responded (respond 200 (BResults [js "a@b.com"] [])),
     {| lookups := [js "u3"];
        sends := [NotifyLostOnFound.mkSend (js "re_key")
                    (js "notifications@no-reply.local")
                    (js "New found item in Electronics may match your lost item")
                    (NotifyLostOnFound.htmlOf scenarioFound) (js "a@b.com")] |})
  /\ fst (serve Lookup downWorld lookupRequest)
     = Responded (respond 200 (BSummary (js "Electronics") 1 1 [])).
Proof. split; reflexivity. Qed.

(** ** Independent deliveries *)

(** The send loop of the lookup variant records every recipient, as sent or
    as failed, whatever the provider does. *)
Lemma lookup_sendAll_recorded w mk toEmails sent failures issued :
  let '(sent', failures', _) :=
    NotifyMatches.sendAll w mk toEmails sent failures issued in
  sent' + List.length failures'
  = sent + List.length failures + List.length toEmails /\
  exists added, failures' = failures ++ added /\
                incl (map f_to added) toEmails.
Proof.
  revert sent failures issued.
  induction toEmails as [|to rest IH]; intros sent failures issued; simpl.
  - split; [lia|]. exists []. split; [now rewrite app_nil_r | easy].
  - destruct (fetch w _ _) as [m|[|] [t|m]];
      match goal with
      | |- context [NotifyMatches.sendAll w mk rest ?s ?f ?i] =>
          specialize (IH s f i);
          destruct (NotifyMatches.sendAll w mk rest s f i) as [[s' f'] i']
      end;
      destruct IH as (Hn & added & -> & Hi);
      rewrite ?length_app in *; simpl in *; (split; [lia|]).
    all: try (exists added; split; [reflexivity|];
              intros a Ha; right; now apply Hi).
    all: eexists (_ :: added); rewrite <- app_assoc; (split; [reflexivity|]);
      intros a [<-|Ha]; [now left | right; now apply Hi].
Qed.

(** With a provider that always answers, the inline variant gets one result
    per recipient, in order. *)
Lemma inline_dispatch_answered w mk first toList :
  (forall n rq, exists ok text, fetch w n rq = FetchResponse ok text) ->
  exists results,
    NotifyLostOnFound.promiseAll
      (map snd (NotifyLostOnFound.dispatch w mk first toList)) = Some results /\
    map d_to results = toList.
Proof.
  intros Hf. revert first.
  induction toList as [|to rest IH]; intros first; simpl.
  - now exists [].
  - destruct (Hf first (mk to)) as (ok & text & ->). simpl.
    destruct (IH (S first)) as (results & -> & Hr).
    eexists. split; [reflexivity|]. simpl. now rewrite Hr.
Qed.

(** A rejected provider call rejects the whole inline dispatch. *)
Lemma inline_dispatch_thrown w mk first toList :
  (exists i to m, nth_error toList i = Some to /\
                  fetch w (first + i) (mk to) = FetchThrows m) ->
  NotifyLostOnFound.promiseAll
    (map snd (NotifyLostOnFound.dispatch w mk first toList)) = None.
Proof.
  revert first. induction toList as [|x rest IH];
    intros first (i & to & m & Hn & Hf).
  - destruct i; discriminate.
  - simpl. destruct i as [|i]; simpl in Hn.
    + injection Hn as ->. rewrite Nat.add_0_r in Hf. now rewrite Hf.
    + destruct (NotifyLostOnFound.settle x _); [|reflexivity].
      rewrite (IH (S first)); [reflexivity|].
      exists i, to, m. split; [assumption|].
      now rewrite Nat.add_succ_l, <- Nat.add_succ_r.
Qed.

(** Lookup variant: once recipients are resolved the answer is 200, and
    every recipient is counted as sent or listed as failed. *)
Lemma lookup_deliveries_recorded w req l :
  NotifyMatches.resolved w req = Some l ->
  exists category sent failures,
    fst (NotifyMatches.handler w req)
      = Responded (respond 200
          (BSummary category (List.length l) sent failures)) /\
    sent + List.length failures = List.length l /\
    incl (map f_to failures) l.
Proof.
  intros H. apply lookup_resolved_inv in H
    as (cfg & foundItem & lostItems & calls & Hc & Hg & Hr).
  unfold NotifyMatches.handler, NotifyMatches.deliver. rewrite Hc, Hg, Hr.
  match goal with
  | |- context [NotifyMatches.sendAll ?w ?mk ?l ?s ?f ?i] =>
      pose proof (lookup_sendAll_recorded w mk l s f i) as Hs;
      destruct (NotifyMatches.sendAll w mk l s f i) as [[sent failures] issued]
  end.
  destruct Hs as (Hn & added & -> & Hi). simpl in *.
  exists (fr_category foundItem), sent, added. repeat split; [lia | assumption].
Qed.

(** Inline variant, provider always answering: the answer is 200 and the
    results cover the recipients one for one. *)
Lemma inline_deliveries_recorded w req l :
  NotifyLostOnFound.resolved w req = Some l -> l <> [] ->
  truthyOpt (RESEND_API_KEY w) = true ->
  (forall n rq, exists ok text, fetch w n rq = FetchResponse ok text) ->
  exists results,
    fst (NotifyLostOnFound.handler w req)
      = Responded (respond 200
          (BResults (map d_to (filter d_ok results))
                    (filter (fun r => negb (d_ok r)) results))) /\
    map d_to results = l.
Proof.
  intros H Hne Hk Hf.
  apply inline_resolved_inv in H as (found & lostItems & calls & Hv & Hr).
  unfold NotifyLostOnFound.handler. rewrite Hv, Hr.
  destruct (inline_deliver_cases w found l)
    as [[-> _]|[(_ & Hk' & _)|(_ & _ & cs & -> & ->)]]; try congruence.
  destruct (inline_dispatch_answered w
              (NotifyLostOnFound.mkSend (stringOf (RESEND_API_KEY w))
                 (NotifyLostOnFound.fromAddress w)
                 (NotifyLostOnFound.subjectOf found)
                 (NotifyLostOnFound.htmlOf found)) 0 l Hf)
    as (results & -> & Hm).
  now exists results.
Qed.

(** Inline variant: one rejected provider call and the handler's promise
    rejects, whatever the other calls returned. *)
Lemma inline_transport_error w req l i to m :
  NotifyLostOnFound.resolved w req = Some l ->
  truthyOpt (RESEND_API_KEY w) = true ->
  nth_error l i = Some to ->
  (forall rq, fetch w i rq = FetchThrows m) ->
  fst (NotifyLostOnFound.handler w req) = Rejected.
Proof.
  intros H Hk Hn Hf.
  apply inline_resolved_inv in H as (found & lostItems & calls & Hv & Hr).
  unfold NotifyLostOnFound.handler. rewrite Hv, Hr.
  destruct (inline_deliver_cases w found l)
    as [[-> _]|[(_ & Hk' & _)|(_ & _ & cs & -> & ->)]]; try congruence.
  - destruct i; discriminate.
  - rewrite inline_dispatch_thrown; [reflexivity|].
    exists i, to, m. split; [assumption | apply Hf].
Qed.

(** C4 (failing input). Scenario of the specification, the provider being
    unreachable for "a@b.com" and accepting "c@d.com".  The inline variant
    issues both requests and then rejects: no response, nothing recorded.
    The lookup variant answers 200, records the failure with its detail and
    counts the other delivery as sent. *)
Theorem C4_transport_error :
  serve Inline unreachableWorld inlineRequest
  = (Rejected,
     {| lookups := [js "u3"];
        sends := map (NotifyLostOnFound.mkSend (js "re_key")
                        (js "notifications@no-reply.local")
                        (js "New found item in Electronics may match your lost item")
                        (NotifyLostOnFound.htmlOf scenarioFound))
                   [js "a@b.com"; js "c@d.com"] |})
  /\
  fst (serve Lookup unreachableWorld lookupRequest)
  = Responded (respond 200
      (BSummary (js "Electronics") 2 1
         [{| f_to := js "a@b.com"; f_error := js "connection reset" |}]))
  /\
  dispatchedTo (snd (serve Lookup unreachableWorld lookupRequest))
  = [js "a@b.com"; js "c@d.com"].
Proof. repeat split; reflexivity. Qed.

(** A non-2xx answer is recorded by both variants. *)
Example refused_delivery_recorded :
  fst (serve Inline refusingWorld inlineRequest)
  = Responded (respond 200
      (BResults [js "c@d.com"]
         [{| d_to := js "a@b.com"; d_ok := false;
             d_detail := Some (js "invalid recipient") |}]))
  /\
  fst (serve Lookup refusingWorld lookupRequest)
  = Responded (respond 200
      (BSummary (js "Electronics") 2 1
         [{| f_to := js "a@b.com"; f_error := js "invalid recipient" |}])).
Proof. split; reflexivity. Qed.

(** ** The two variants compared *)









Lemma lookup_config_key w req cfg :
  NotifyMatches.config w req = inr cfg ->
  truthyOpt (RESEND_API_KEY w) = true /\
  NotifyMatches.cfg_key cfg = stringOf (RESEND_API_KEY w).
Proof.
  unfold NotifyMatches.config.
  destruct (jseqb (method req) (js "OPTIONS")); [discriminate|].
  destruct (negb (jseqb (method req) (js "POST"))); [discriminate|].
  destruct (_ || _); [discriminate|].
  destruct (truthyOpt (RESEND_API_KEY w)); [|discriminate]. simpl.
  intros [= <-]. now split.
Qed.










(* ================================================================= *)
(** * Further properties of the code *)

(** ** Substrings and trimming *)

Lemma startsWith_spec (needle s : jsstring) :
  startsWith needle s = true <-> exists b, s = needle ++ b.
Proof.
  revert s. induction needle as [|a n IH]; intros s; simpl.
  - split; [intros _; now exists s | reflexivity].
  - destruct s as [|c s]; simpl.
    + split; [discriminate | intros (b & Hb); discriminate].
    + rewrite andb_true_iff, N.eqb_eq, IH. split.
      * intros (-> & b & ->). now exists b.
      * intros (b & [= -> ->]). split; [reflexivity | now exists b].
Qed.

(** [s.includes(needle)] holds exactly when [needle] occurs inside [s]. *)
Lemma includes_spec (needle s : jsstring) :
  includes needle s = true <-> exists a b, s = a ++ needle ++ b.
Proof.
  induction s as [|c s IH].
  - simpl. rewrite orb_false_r, startsWith_spec. split.
    + intros (b & Hb). now exists [], b.
    + intros (a & b & H). symmetry in H.
      apply app_eq_nil in H as [-> H]. now exists b.
  - cbn [includes]. rewrite orb_true_iff, startsWith_spec, IH. split.
    + intros [(b & ->)|(a & b & ->)]; [now exists [], b | now exists (c :: a), b].
    + intros ([|x a] & b & H); simpl in H.
      * left. now exists b.
      * injection H as -> ->. right. now exists a, b.
Qed.

Lemma includes_here (needle b : jsstring) : includes needle (needle ++ b) = true.
Proof. apply includes_spec. now exists [], b. Qed.

Lemma includes_self (needle : jsstring) : includes needle needle = true.
Proof. apply includes_spec. exists [], []. now rewrite app_nil_r. Qed.

Lemma includes_app_l (needle s b : jsstring) :
  includes needle s = true -> includes needle (s ++ b) = true.
Proof.
  rewrite !includes_spec. intros (x & y & ->). exists x, (y ++ b).
  now rewrite <- !app_assoc.
Qed.

Lemma includes_app_r (needle a s : jsstring) :
  includes needle s = true -> includes needle (a ++ s) = true.
Proof.
  rewrite !includes_spec. intros (x & y & ->). exists (a ++ x), y.
  now rewrite <- !app_assoc.
Qed.

(** Locate a part of a concatenation. *)
Ltac find_part :=
  solve [ apply includes_self
        | apply includes_here
        | apply includes_app_l; find_part
        | apply includes_app_r; find_part ].

Lemma trimStart_idem (s : jsstring) : trimStart (trimStart s) = trimStart s.
Proof.
  induction s as [|c s IH]; simpl; [reflexivity|].
  destruct (isWhite c) eqn:E; [assumption|]. simpl. now rewrite E.
Qed.

Lemma trimStart_app (a b : jsstring) :
  trimStart (a ++ b) =
  match trimStart a with
  | [] => trimStart b
  | c :: t => (c :: t) ++ b
  end.
Proof.
  induction a as [|x a IH]; simpl; [reflexivity|].
  destruct (isWhite x); [assumption | reflexivity].
Qed.

Lemma trimEnd_cons (c : N) (r : jsstring) :
  trimEnd (c :: r) =
  match trimEnd r with
  | [] => if isWhite c then [] else [c]
  | x :: t => c :: x :: t
  end.
Proof.
  unfold trimEnd. simpl. rewrite trimStart_app.
  destruct (trimStart (rev r)) as [|y t] eqn:E; simpl.
  - now destruct (isWhite c).
  - rewrite rev_app_distr. simpl.
    destruct (rev t ++ [y]) eqn:E'; [|reflexivity].
    now destruct (rev t).
Qed.

(** What [trimStart] returns starts with a character that is not white. *)
Lemma trimStart_head (s : jsstring) :
  match trimStart s with [] => True | c :: _ => isWhite c = false end.
Proof.
  induction s as [|c s IH]; simpl; [exact I|].
  destruct (isWhite c) eqn:E; [assumption | simpl; assumption].
Qed.

Lemma trimEnd_head (s : jsstring) :
  match s with [] => True | c :: _ => isWhite c = false end ->
  trimStart (trimEnd s) = trimEnd s.
Proof.
  destruct s as [|c r]; [reflexivity|]. intros Hc. rewrite trimEnd_cons.
  destruct (trimEnd r); rewrite ?Hc; simpl; now rewrite Hc.
Qed.

Lemma trimEnd_idem (s : jsstring) : trimEnd (trimEnd s) = trimEnd s.
Proof.
  unfold trimEnd. now rewrite rev_involutive, trimStart_idem.
Qed.

Lemma trim_idem (s : jsstring) : trim (trim s) = trim s.
Proof.
  unfold trim. rewrite (trimEnd_head _ (trimStart_head s)).
  apply trimEnd_idem.
Qed.

Lemma trimStart_keeps (c : N) (s : jsstring) :
  isWhite c = false -> In c s -> In c (trimStart s).
Proof.
  intros Hc. induction s as [|x s IH]; simpl; [tauto|].
  destruct (isWhite x) eqn:E; [|now intros].
  intros [->|H]; [congruence | now apply IH].
Qed.

(** Trimming removes white space only. *)
Lemma trim_keeps (c : N) (s : jsstring) :
  isWhite c = false -> In c s -> In c (trim s).
Proof.
  intros Hc H. unfold trim, trimEnd. apply in_rev in H.
  rewrite <- in_rev. apply trimStart_keeps; [assumption|].
  rewrite <- in_rev. apply trimStart_keeps; [assumption|].
  now apply in_rev.
Qed.

(** ** The e-mail test of index.ts *)

(** X1. [isEmail] accepts exactly the strings whose trimmed form is a
    non-empty local part, "@", a non-empty domain part, ".", and a non-empty
    last part, none of the three parts holding white space or "@"; [null]
    and the empty string are refused. *)
Theorem isEmail_shape (v : option jsstring) :
  isEmail v = true <->
  exists s a b c,
    v = Some s /\ trim s = a ++ AT :: b ++ DOT :: c /\
    a <> [] /\ b <> [] /\ c <> [] /\
    Forall (fun x => notSpaceAt x = true) a /\
    Forall (fun x => notSpaceAt x = true) b /\
    Forall (fun x => notSpaceAt x = true) c.
Proof.
  split.
  - destruct v as [s|]; simpl; [|discriminate].
    destruct (truthy s); simpl; [|discriminate].
    intros H. apply regexTest_spec, emailRegex_shape in H
      as (a & b & c & H).
    now exists s, a, b, c.
  - intros (s & a & b & c & -> & Ht & H).
    assert (Matches emailRegex (trim s)) as Hm
      by (apply emailRegex_shape; exists a, b, c; now split).
    unfold isEmail. destruct s as [|x s].
    + destruct a; discriminate Ht.
    + simpl truthy. cbn [negb]. now apply regexTest_spec.
Qed.

(** X2. [isEmail] ignores leading and trailing white space: a string and
    its trimmed form are judged alike, so the address index.ts stores for an
    accepted contact is accepted again. *)
Theorem isEmail_trim (s : jsstring) :
  isEmail (Some (trim s)) = isEmail (Some s).
Proof.
  destruct s as [|x s]; [reflexivity|].
  unfold isEmail. change (truthy (x :: s)) with true. cbn [negb].
  pose proof (trim_idem (x :: s)) as Hi.
  destruct (trim (x :: s)) as [|y t]; [reflexivity|].
  change (truthy (y :: t)) with true. cbn [negb]. now rewrite Hi.
Qed.

Lemma notSpaceAt_count (l : jsstring) :
  Forall (fun x => notSpaceAt x = true) l ->
  count_occ N.eq_dec l AT = 0 /\ ~ In AT l.
Proof.
  intros H. assert (~ In AT l) as Hn.
  { intros Hin. apply (proj1 (Forall_forall _ _) H) in Hin. discriminate Hin. }
  split; [now apply count_occ_not_In | assumption].
Qed.

(** X3. What [isEmail] accepts holds, once trimmed, exactly one "@", no
    white space, and a "." somewhere after the "@". *)
Theorem isEmail_single_at (s : jsstring) :
  isEmail (Some s) = true ->
  count_occ N.eq_dec (trim s) AT = 1 /\
  Forall (fun c => isWhite c = false) (trim s) /\
  exists a d, trim s = a ++ AT :: d /\ In DOT d /\ ~ In AT d.
Proof.
  intros H. unfold isEmail in H.
  destruct (truthy s); cbn [negb] in H; [|discriminate H].
  apply regexTest_spec in H as Hm.
  apply emailRegex_shape in Hm as (a & b & c & Ht & _ & _ & _ & Fa & Fb & Fc).
  apply regexTest_spec in H as Hm.
  destruct (notSpaceAt_count Fa) as [Ca _].
  destruct (notSpaceAt_count Fb) as [Cb Nb].
  destruct (notSpaceAt_count Fc) as [Cc Nc].
  split; [|split; [now apply emailShape_clean|]].
  - rewrite Ht, count_occ_app, Ca. simpl.
    destruct (N.eq_dec AT AT) as [_|Hn]; [|now destruct Hn].
    rewrite count_occ_app, Cb. simpl.
    destruct (N.eq_dec DOT AT) as [Hd|_]; [discriminate Hd|].
    now rewrite Cc.
  - exists a, (b ++ DOT :: c). split; [assumption|]. split.
    + apply in_or_app. right. now left.
    + intros Hin. apply in_app_or in Hin as [Hin|[Hin|Hin]];
        [now apply Nb | discriminate Hin | now apply Nc].
Qed.

Lemma isEmail_single_at_witness :
  count_occ N.eq_dec (trim (js " a@b.com ")) AT = 1 /\
  Forall (fun c => isWhite c = false) (trim (js " a@b.com ")) /\
  exists a d, trim (js " a@b.com ") = a ++ AT :: d /\ In DOT d /\ ~ In AT d.
Proof. apply isEmail_single_at. reflexivity. Defined.

Example isEmail_rejects :
  isEmail (Some (js "a@b@c.com")) = false /\
  isEmail (Some (js "a b@c.com")) = false /\
  isEmail (Some (js "a@.com")) = false /\
  isEmail (Some (js "a@b.")) = false /\
  isEmail (Some (js "   ")) = false /\
  isEmail (Some []) = false.
Proof. repeat split; reflexivity. Qed.

(** ** Shape of the resolved recipients *)

(** An accepted contact is accepted again once trimmed, and its trimmed
    form is not empty. *)
Lemma isEmail_trimmed (c : jsstring) :
  isEmail (Some c) = true ->
  isEmail (Some (trim c)) = true /\ truthy (trim c) = true.
Proof.
  unfold isEmail. destruct (truthy c); cbn [negb]; [|discriminate].
  intros H. rewrite trim_idem.
  destruct (trim c) as [|x t]; [discriminate H|]. now split.
Qed.

(** X4. Inline variant: no resolved recipient is the empty string, and each
    one either passes [isEmail] itself (a trimmed contact) or was answered
    by the account service. *)
Theorem inline_recipients_wellformed w found lostItems a :
  In a (fst (NotifyLostOnFound.resolve w found lostItems)) ->
  truthy a = true /\ (isEmail (Some a) = true \/ fromAccounts w a).
Proof.
  intros H. apply inline_resolve_In in H as (it & _ & _ & Ho).
  destruct Ho as [[He ->]|(_ & Ht & n & Hn)].
  - destruct (li_contact_info it) as [c|]; [|discriminate He].
    apply isEmail_trimmed in He as [He Ht]. simpl stringOf.
    split; [assumption | now left].
  - split; [assumption|]. right. now exists n, (li_user_id it).
Qed.

Lemma inline_recipients_wellformed_witness :
  truthy (js "a@b.com") = true /\
  (isEmail (Some (js "a@b.com")) = true \/
   fromAccounts (scenarioWorld None accepting) (js "a@b.com")).
Proof.
  apply (inline_recipients_wellformed (scenarioWorld None accepting)
           scenarioFound scenarioRows).
  vm_compute. now left.
Defined.

(** X5. Lookup variant: no resolved recipient is the empty string, and each
    one either holds an "@" and has no white space at either end (a trimmed
    contact) or was answered by the account service. *)
Theorem lookup_recipients_wellformed w lostItems a :
  In a (fst (NotifyMatches.resolve w lostItems)) ->
  truthy a = true /\
  ((includes [AT] a = true /\ trim a = a) \/ fromAccounts w a).
Proof.
  intros H. apply lookup_resolve_In in H as (it & _ & Ho).
  destruct Ho as [[Hd ->]|(_ & Ht & n & Hn)].
  - destruct (li_contact_info it) as [c|]; [|discriminate Hd].
    simpl in Hd. apply andb_true_iff in Hd as [_ Hd].
    apply includes_char in Hd. simpl stringOf.
    assert (In AT (trim c)) as Hin by (now apply trim_keeps).
    split; [destruct (trim c); [destruct Hin | reflexivity]|].
    left. split; [now apply includes_char | apply trim_idem].
  - split; [assumption|]. right. now exists n, (li_user_id it).
Qed.

Lemma lookup_recipients_wellformed_witness :
  truthy (js "c@d.com") = true /\
  ((includes [AT] (js "c@d.com") = true /\ trim (js "c@d.com") = js "c@d.com")
   \/ fromAccounts (scenarioWorld None accepting) (js "c@d.com")).
Proof.
  apply (lookup_recipients_wellformed (scenarioWorld None accepting)
           scenarioRows).
  vm_compute. right. now left.
Defined.

(** ** Account lookups made *)

Lemma setAdd_length (x : jsstring) (s : list jsstring) :
  List.length (setAdd x s) <= S (List.length s).
Proof.
  unfold setAdd. destruct (setHas x s); [lia|].
  rewrite length_app. simpl. lia.
Qed.

Lemma inline_collect_length found lostItems rs ms :
  List.length (fst (fold_left (NotifyLostOnFound.classify found) lostItems (rs, ms)))
  + List.length (snd (fold_left (NotifyLostOnFound.classify found) lostItems (rs, ms)))
  <= List.length rs + List.length ms + List.length lostItems.
Proof.
  revert rs ms. induction lostItems as [|x l IH]; intros rs ms; simpl; [lia|].
  destruct (jseqb _ _); [specialize (IH rs ms); lia|].
  destruct (isEmail _).
  - specialize (IH (setAdd (trim (stringOf (li_contact_info x))) rs) ms).
    pose proof (setAdd_length (trim (stringOf (li_contact_info x))) rs). lia.
  - specialize (IH rs (setAdd (li_user_id x) ms)).
    pose proof (setAdd_length (li_user_id x) ms). lia.
Qed.

Lemma addLookup_length r rs :
  List.length (NotifyLostOnFound.addLookup r rs) <= S (List.length rs).
Proof.
  destruct r as [| |[e|]]; simpl; try lia.
  destruct (truthy e); [apply setAdd_length | lia].
Qed.

Lemma inline_lookupAll_length w uids rs calls :
  List.length (fst (NotifyLostOnFound.lookupAll w uids rs calls))
  <= List.length rs + List.length uids.
Proof.
  revert rs calls. induction uids as [|u uids IH]; intros rs calls; simpl;
    [lia|].
  pose proof (addLookup_length (getUserById w (List.length calls) u) rs).
  specialize (IH (NotifyLostOnFound.addLookup
                    (getUserById w (List.length calls) u) rs)
                 (calls ++ [u])). lia.
Qed.

(** X6. Inline variant: no account is looked up twice, the reporter of the
    found item is never looked up, and recipients and lookups together
    number at most the lost rows returned. *)
Theorem inline_lookups_once w found lostItems :
  NoDup (snd (NotifyLostOnFound.resolve w found lostItems)) /\
  ~ In (fp_user_id found) (snd (NotifyLostOnFound.resolve w found lostItems)) /\
  List.length (snd (NotifyLostOnFound.resolve w found lostItems))
    <= List.length lostItems /\
  List.length (fst (NotifyLostOnFound.resolve w found lostItems))
    <= List.length lostItems.
Proof.
  split; [|split].
  - unfold NotifyLostOnFound.resolve.
    pose proof (inline_collect_NoDup found lostItems) as [_ H].
    destruct (NotifyLostOnFound.collect found lostItems) as [rs ms].
    now rewrite inline_lookupAll_calls.
  - intros H. apply inline_resolve_calls in H as (it & _ & Hn & _ & E).
    apply notOwnedBy_neq in Hn. congruence.
  - unfold NotifyLostOnFound.resolve, NotifyLostOnFound.collect.
    pose proof (inline_collect_length found lostItems [] []) as Hl.
    destruct (fold_left _ lostItems ([], [])) as [rs ms]. simpl in Hl.
    rewrite inline_lookupAll_calls.
    pose proof (inline_lookupAll_length w ms rs []). simpl. lia.
Qed.

Example lookup_repeats_owner :
  snd (NotifyMatches.resolve (scenarioWorld None accepting)
         [candidateU3; candidateU2; candidateU3])
  = [js "u3"; js "u3"]
  /\ snd (NotifyLostOnFound.resolve (scenarioWorld None accepting)
            scenarioFound [candidateU3; candidateU2; candidateU3])
     = [js "u3"].
Proof. split; reflexivity. Qed.

Lemma lookup_step_fold w lostItems s calls :
  snd (fold_left (NotifyMatches.step w) lostItems (s, calls))
  = calls ++ map li_user_id (filter needsLookup lostItems) /\
  List.length (fst (fold_left (NotifyMatches.step w) lostItems (s, calls)))
  <= List.length s + List.length lostItems.
Proof.
  revert s calls. induction lostItems as [|x l IH]; intros s calls; simpl.
  - rewrite app_nil_r. split; [reflexivity | lia].
  - unfold needsLookup at 1.
    replace (NotifyMatches.step w (s, calls) x)
      with (if NotifyMatches.hasAt (li_contact_info x)
            then (setAdd (trim (stringOf (li_contact_info x))) s, calls)
            else if truthy (li_user_id x)
            then (NotifyMatches.addLookup
                    (getUserById w (List.length calls) (li_user_id x)) s,
                  calls ++ [li_user_id x])
            else (s, calls)) by reflexivity.
    destruct (NotifyMatches.hasAt (li_contact_info x)); simpl.
    + destruct (IH (setAdd (trim (stringOf (li_contact_info x))) s) calls)
        as [-> Hl].
      split; [reflexivity|].
      pose proof (setAdd_length (trim (stringOf (li_contact_info x))) s). lia.
    + destruct (truthy (li_user_id x)); simpl.
      * destruct (IH (NotifyMatches.addLookup
                        (getUserById w (List.length calls) (li_user_id x)) s)
                     (calls ++ [li_user_id x])) as [-> Hl].
        split; [now rewrite <- app_assoc|].
        pose proof (addLookup_length
                      (getUserById w (List.length calls) (li_user_id x)) s)
          as Ha.
        rewrite <- lookup_addLookup_same in Ha. lia.
      * destruct (IH s calls) as [-> Hl]. split; [reflexivity | lia].
Qed.

(** X7. Lookup variant: the account service is called, in row order, once
    for every lost row that has no "@" in its contact and names an owner
    (so an owner of several such rows is looked up several times), and the
    recipients number at most the lost rows. *)
Theorem lookup_lookups_exact w lostItems :
  snd (NotifyMatches.resolve w lostItems)
  = map li_user_id (filter needsLookup lostItems) /\
  List.length (fst (NotifyMatches.resolve w lostItems))
  <= List.length lostItems.
Proof.
  unfold NotifyMatches.resolve.
  destruct (lookup_step_fold w lostItems [] []) as [-> Hl].
  split; [reflexivity | exact Hl].
Qed.

(** ** Requests sent to the provider *)

Lemma inline_dispatch_requests w mk first toList :
  map fst (NotifyLostOnFound.dispatch w mk first toList) = map mk toList.
Proof.
  revert first. induction toList as [|to rest IH]; intros first; simpl;
    [reflexivity|].
  now rewrite IH.
Qed.

(** X8. Inline variant, request past validation: with the credential set,
    the handler posts to the provider exactly one message per resolved
    recipient, in order, all with the same bearer credential, sender,
    subject and body, and it does so whether or not one of the calls
    rejects; without the credential it posts nothing.  The sender is never
    the empty string. *)
Theorem inline_sends_uniform w req found lostItems :
  NotifyLostOnFound.validate w req = inr (found, lostItems) ->
  sends (snd (NotifyLostOnFound.handler w req))
  = (if truthyOpt (RESEND_API_KEY w)
     then map (NotifyLostOnFound.mkSend (stringOf (RESEND_API_KEY w))
                 (NotifyLostOnFound.fromAddress w)
                 (NotifyLostOnFound.subjectOf found)
                 (NotifyLostOnFound.htmlOf found))
              (fst (NotifyLostOnFound.resolve w found lostItems))
     else [])
  /\ lookups (snd (NotifyLostOnFound.handler w req))
     = snd (NotifyLostOnFound.resolve w found lostItems)
  /\ truthy (NotifyLostOnFound.fromAddress w) = true.
Proof.
  intros Hv. unfold NotifyLostOnFound.handler. rewrite Hv.
  destruct (NotifyLostOnFound.resolve w found lostItems) as [l calls].
  split; [|split].
  - destruct (inline_deliver_cases w found l)
      as [[-> ->]|[(_ & -> & ->)|(_ & -> & cs & -> & ->)]]; simpl.
    + now destruct (truthyOpt _).
    + reflexivity.
    + apply inline_dispatch_requests.
  - now destruct (NotifyLostOnFound.deliver w found l).
  - unfold NotifyLostOnFound.fromAddress.
    destruct (FROM_EMAIL w) as [f|]; simpl; [|reflexivity].
    now destruct (truthy f) eqn:E.
Qed.

Lemma inline_sends_uniform_witness :
  sends (snd (NotifyLostOnFound.handler unreachableWorld inlineRequest))
  = (if truthyOpt (RESEND_API_KEY unreachableWorld)
     then map (NotifyLostOnFound.mkSend
                 (stringOf (RESEND_API_KEY unreachableWorld))
                 (NotifyLostOnFound.fromAddress unreachableWorld)
                 (NotifyLostOnFound.subjectOf scenarioFound)
                 (NotifyLostOnFound.htmlOf scenarioFound))
              (fst (NotifyLostOnFound.resolve unreachableWorld scenarioFound
                      scenarioRows))
     else [])
  /\ lookups (snd (NotifyLostOnFound.handler unreachableWorld inlineRequest))
     = snd (NotifyLostOnFound.resolve unreachableWorld scenarioFound
              scenarioRows)
  /\ truthy (NotifyLostOnFound.fromAddress unreachableWorld) = true.
Proof. apply inline_sends_uniform. reflexivity. Defined.

(** X9. Lookup variant, request past the environment checks and the two
    store queries: the handler posts to the provider exactly one message per
    resolved recipient, in order, all with the bearer credential of the
    environment (never empty), the configured sender, and the subject and
    body composed from the found item. *)
Theorem lookup_sends_uniform w req cfg foundItem lostItems :
  NotifyMatches.config w req = inr cfg ->
  NotifyMatches.gather w req = inr (foundItem, lostItems) ->
  sends (snd (NotifyMatches.handler w req))
  = map (NotifyMatches.mkSend cfg
           (NotifyMatches.subjectOf (fr_category foundItem))
           (NotifyMatches.htmlOf foundItem))
        (fst (NotifyMatches.resolve w lostItems))
  /\ lookups (snd (NotifyMatches.handler w req))
     = snd (NotifyMatches.resolve w lostItems)
  /\ NotifyMatches.cfg_key cfg = stringOf (RESEND_API_KEY w)
  /\ truthy (NotifyMatches.cfg_key cfg) = true.
Proof.
  intros Hc Hg. unfold NotifyMatches.handler, NotifyMatches.deliver.
  rewrite Hc, Hg.
  destruct (NotifyMatches.resolve w lostItems) as [l calls].
  match goal with
  | |- context [NotifyMatches.sendAll ?w ?mk ?l ?s ?f ?i] =>
      pose proof (lookup_sendAll_issued w mk l s f i) as Hs;
      destruct (NotifyMatches.sendAll w mk l s f i) as [[sent failures] issued]
  end.
  simpl in *. subst issued.
  destruct (lookup_config_key _ _ Hc) as [Hk ->].
  repeat split. destruct (RESEND_API_KEY w); [exact Hk | discriminate Hk].
Qed.

Lemma lookup_sends_uniform_witness :
  sends (snd (NotifyMatches.handler unreachableWorld lookupRequest))
  = map (NotifyMatches.mkSend
           {| NotifyMatches.cfg_key := js "re_key";
              NotifyMatches.cfg_from :=
                js "Campus Finder <no-reply@yourapp.example>" |}
           (NotifyMatches.subjectOf
              (fr_category (toFound (item "f1" "found" "Electronics" "u1" None))))
           (NotifyMatches.htmlOf
              (toFound (item "f1" "found" "Electronics" "u1" None))))
        (fst (NotifyMatches.resolve unreachableWorld scenarioRows))
  /\ lookups (snd (NotifyMatches.handler unreachableWorld lookupRequest))
     = snd (NotifyMatches.resolve unreachableWorld scenarioRows)
  /\ js "re_key" = stringOf (RESEND_API_KEY unreachableWorld)
  /\ truthy (js "re_key") = true.
Proof.
  apply (lookup_sends_uniform unreachableWorld lookupRequest
           (cfg := {| NotifyMatches.cfg_key := js "re_key";
                      NotifyMatches.cfg_from :=
                        js "Campus Finder <no-reply@yourapp.example>" |}));
    reflexivity.
Defined.

(** ** What the summaries add up to *)

(** X10. Lookup variant: once recipients are resolved the answer is a 200
    summary whose [recipients] count is the number of resolved recipients
    and of provider calls made, whose [sent] count and [failures] list add
    up to it, and whose failures name resolved recipients only, whatever
    the provider did. *)
Theorem lookup_summary_adds_up w req l :
  NotifyMatches.resolved w req = Some l ->
  exists category sent failures,
    fst (NotifyMatches.handler w req)
      = Responded (respond 200
          (BSummary category (List.length l) sent failures)) /\
    sent + List.length failures = List.length l /\
    incl (map f_to failures) l /\
    List.length (sends (snd (NotifyMatches.handler w req))) = List.length l.
Proof.
  intros H.
  pose proof (lookup_dispatched _ _ H) as Hd.
  pose proof lookup_deliveries_recorded as Hrec.
  specialize (Hrec w req l H) as (category & sent & failures & Hr & Hn & Hi).
  exists category, sent, failures. repeat split; try assumption.
  unfold dispatchedTo in Hd. now rewrite <- Hd, length_map.
Qed.

Lemma lookup_summary_adds_up_witness :
  exists category sent failures,
    fst (NotifyMatches.handler unreachableWorld lookupRequest)
      = Responded (respond 200
          (BSummary category
             (List.length [js "a@b.com"; js "c@d.com"]) sent failures)) /\
    sent + List.length failures = List.length [js "a@b.com"; js "c@d.com"] /\
    incl (map f_to failures) [js "a@b.com"; js "c@d.com"] /\
    List.length (sends (snd (NotifyMatches.handler unreachableWorld
                               lookupRequest)))
      = List.length [js "a@b.com"; js "c@d.com"].
Proof. apply lookup_summary_adds_up. reflexivity. Defined.

Lemma filter_partition (A : Type) (f : A -> bool) (l : list A) :
  Permutation (filter f l ++ filter (fun x => negb (f x)) l) l.
Proof.
  induction l as [|x l IH]; simpl; [constructor|].
  destruct (f x); simpl.
  - now constructor.
  - apply Permutation_sym, Permutation_cons_app. now apply Permutation_sym.
Qed.

(** X11. Inline variant, credential set, provider answering every call:
    the 200 answer splits the resolved recipients between [successes] and
    [failures], each recipient appearing in exactly one of them, and every
    entry of [failures] has [ok] false. *)
Theorem inline_results_partition w req l :
  NotifyLostOnFound.resolved w req = Some l -> l <> [] ->
  truthyOpt (RESEND_API_KEY w) = true ->
  providerAnswers w ->
  exists successes failures,
    fst (NotifyLostOnFound.handler w req)
      = Responded (respond 200 (BResults successes failures)) /\
    Permutation (successes ++ map d_to failures) l /\
    NoDup (successes ++ map d_to failures) /\
    Forall (fun r => d_ok r = false) failures.
Proof.
  intros H Hne Hk Hp.
  pose proof (resolved_NoDup Inline _ _ H) as Hnd.
  pose proof inline_deliveries_recorded as Hrec.
  specialize (Hrec w req l H Hne Hk Hp) as (results & Hr & Hm).
  do 2 eexists. split; [exact Hr|].
  assert (Permutation
            (map d_to (filter d_ok results)
             ++ map d_to (filter (fun r => negb (d_ok r)) results)) l) as Hperm.
  { rewrite <- map_app, <- Hm. apply Permutation_map, filter_partition. }
  split; [exact Hperm|]. split.
  - apply Permutation_sym in Hperm. exact (Permutation_NoDup Hperm Hnd).
  - apply Forall_forall. intros r Hin. apply filter_In in Hin as [_ Hin].
    now apply negb_true_iff.
Qed.

Lemma inline_results_partition_witness :
  exists successes failures,
    fst (NotifyLostOnFound.handler refusingWorld inlineRequest)
      = Responded (respond 200 (BResults successes failures)) /\
    Permutation (successes ++ map d_to failures)
      [js "a@b.com"; js "c@d.com"] /\
    NoDup (successes ++ map d_to failures) /\
    Forall (fun r => d_ok r = false) failures.
Proof.
  apply inline_results_partition;
    [reflexivity | discriminate | reflexivity |].
  intros n rq. unfold refusingWorld, scenarioWorld, deployment, refusing.
  simpl. destruct (jseqb _ _); eauto.
Defined.

(** ** Error answers *)

Lemma inline_deliver_status w found toList r :
  fst (NotifyLostOnFound.deliver w found toList) = Responded r ->
  status r = 200.
Proof.
  destruct (inline_deliver_cases w found toList)
    as [[_ ->]|[(_ & _ & ->)|(_ & _ & cs & _ & ->)]]; simpl.
  - now intros [= <-].
  - now intros [= <-].
  - destruct (NotifyLostOnFound.promiseAll _); [|discriminate].
    now intros [= <-].
Qed.

(** X12. In both variants an answer other than 200 is given before any
    account lookup and any call to the provider: an error response means
    that nobody was looked up and nothing was sent. *)
Theorem error_means_no_calls v w req r :
  fst (serve v w req) = Responded r -> status r <> 200 ->
  snd (serve v w req) = noCalls.
Proof.
  destruct v; simpl.
  - unfold NotifyLostOnFound.handler.
    destruct (NotifyLostOnFound.validate w req) as [e|[found lostItems]];
      [reflexivity|].
    destruct (NotifyLostOnFound.resolve w found lostItems) as [l calls].
    pose proof (@inline_deliver_status w found l r) as Hs.
    destruct (NotifyLostOnFound.deliver w found l) as [o sent]. simpl in *.
    intros Ho Hn. now apply Hs in Ho.
  - unfold NotifyMatches.handler.
    destruct (NotifyMatches.config w req) as [e|cfg]; [reflexivity|].
    destruct (NotifyMatches.gather w req) as [e|[foundItem lostItems]];
      [reflexivity|].
    destruct (NotifyMatches.resolve w lostItems) as [l calls].
    unfold NotifyMatches.deliver.
    destruct (NotifyMatches.sendAll _ _ _ _ _ _) as [[sent failures] issued].
    simpl. intros [= <-] Hn. now destruct Hn.
Qed.

Lemma error_means_no_calls_witness :
  snd (serve Lookup (scenarioWorld None accepting) lookupRequest) = noCalls.
Proof.
  apply (error_means_no_calls Lookup (scenarioWorld None accepting)
           lookupRequest
           (r := respond 500 (errorBody "Missing RESEND_API_KEY secret")));
    [reflexivity | discriminate].
Defined.

(** ** Which requests get which status *)

Lemma post_not_options m :
  jseqb m (js "POST") = true -> jseqb m (js "OPTIONS") = false.
Proof. intros H. apply jseqb_eq in H. now subst. Qed.

(** The ways [validate] of the inline variant ends. *)
Lemma inline_validate_cases w req :
  (jseqb (method req) (js "OPTIONS") = true /\
   NotifyLostOnFound.validate w req = inl (respond 200 (BText (js "ok"))))
  \/ (jseqb (method req) (js "OPTIONS") = false /\
      jseqb (method req) (js "POST") = false /\
      NotifyLostOnFound.validate w req
        = inl (respond 405 (BText (js "Method Not Allowed"))))
  \/ (jseqb (method req) (js "POST") = true /\
      validPayload (body req) = false /\
      exists m, NotifyLostOnFound.validate w req
                = inl (respond 400 (BError m None)))
  \/ (jseqb (method req) (js "POST") = true /\
      validPayload (body req) = true /\ storeConfigured w = false /\
      NotifyLostOnFound.validate w req
        = inl (respond 500 (errorBody "Server missing Supabase configuration")))
  \/ (jseqb (method req) (js "POST") = true /\
      validPayload (body req) = true /\ storeConfigured w = true /\
      exists found,
        payloadOf (body req) = Some found /\
        ((exists m, selectLost w (fp_category found) None = QError m /\
                    NotifyLostOnFound.validate w req
                    = inl (respond 500
                             (BError (js "Failed querying lost items") (Some m))))
         \/ (exists data, selectLost w (fp_category found) None = QData data /\
                          NotifyLostOnFound.validate w req
                          = inr (found, rowsOf data)))).
Proof.
  unfold NotifyLostOnFound.validate, storeConfigured.
  destruct (jseqb (method req) (js "OPTIONS")) eqn:Eo; [now left|right].
  destruct (jseqb (method req) (js "POST")) eqn:Ep; simpl;
    [right|left; now repeat split].
  destruct (body req) as [| |[found|] fid]; simpl;
    try (left; repeat split; eexists; reflexivity).
  destruct (truthy (fp_category found)), (truthy (fp_user_id found)); simpl;
    try (left; repeat split; eexists; reflexivity).
  right.
  destruct (truthyOpt (SUPABASE_URL w)),
    (truthyOpt (SUPABASE_SERVICE_ROLE_KEY w)); simpl;
    try (left; now repeat split).
  right. repeat split. exists found. split; [reflexivity|].
  destruct (selectLost w (fp_category found) None) as [m|data];
    [left; now exists m | right; now exists data].
Qed.

Ltac break_hyps :=
  repeat match goal with
         | H : _ /\ _ |- _ => destruct H
         | H : _ \/ _ |- _ => destruct H
         | H : exists _, _ |- _ => destruct H
         end.

(** Closes the rows of a status table once the status is known. *)
Ltac table :=
  repeat split; intros; break_hyps;
  try discriminate; try congruence; try tauto.

(** X13. Inline variant, whenever it answers.  OPTIONS gets 200 "ok".  The
    status is 405 exactly for methods other than OPTIONS and POST; 400
    exactly for a POST whose body is not JSON or lacks a found item with
    category and reporter, whatever the environment; 500 exactly for a POST
    with such a found item when a store setting is missing or the lost-item
    query fails; and 200 otherwise. *)
Theorem inline_status_table w req r :
  fst (NotifyLostOnFound.handler w req) = Responded r ->
  (jseqb (method req) (js "OPTIONS") = true ->
   r = respond 200 (BText (js "ok")))
  /\ (status r = 405 <->
      jseqb (method req) (js "OPTIONS") = false /\
      jseqb (method req) (js "POST") = false)
  /\ (status r = 400 <->
      jseqb (method req) (js "POST") = true /\
      validPayload (body req) = false)
  /\ (status r = 500 <->
      jseqb (method req) (js "POST") = true /\
      validPayload (body req) = true /\
      (storeConfigured w = false \/
       exists found m, payloadOf (body req) = Some found /\
                       selectLost w (fp_category found) None = QError m))
  /\ (status r = 200 \/ status r = 400 \/ status r = 405 \/ status r = 500).
Proof.
  unfold NotifyLostOnFound.handler.
  destruct (inline_validate_cases w req)
    as [(Ho & ->)|[(Ho & Hp & ->)|[(Hp & Hv & m & ->)|[(Hp & Hv & Hc & ->)
       |(Hp & Hv & Hc & found & Hf & [(m & Hq & ->)|(data & Hq & ->)])]]]];
    try pose proof (post_not_options _ Hp) as Ho.
  - cbn [fst]. intros [= <-]. cbn [status respond].
    assert (jseqb (method req) (js "POST") = false) as Hp.
    { destruct (jseqb (method req) (js "POST")) eqn:E; [|reflexivity].
      apply post_not_options in E. congruence. }
    table.
  - cbn [fst]. intros [= <-]. cbn [status respond]. table.
  - cbn [fst]. intros [= <-]. cbn [status respond]. table.
  - cbn [fst]. intros [= <-]. cbn [status respond]. table.
  - cbn [fst]. intros [= <-]. cbn [status respond]. table.
    right. now exists found, m.
  - destruct (NotifyLostOnFound.resolve w found (rowsOf data)) as [l calls].
    pose proof (@inline_deliver_status w found l r) as Hs.
    destruct (NotifyLostOnFound.deliver w found l) as [o sent]. cbn [fst] in *.
    intros Hr. rewrite (Hs Hr). table.
Qed.

Lemma inline_status_table_witness :
  (jseqb (method (post BodyInvalid)) (js "OPTIONS") = true ->
   respond 400 (errorBody "Invalid JSON body") = respond 200 (BText (js "ok")))
  /\ (status (respond 400 (errorBody "Invalid JSON body")) = 405 <->
      jseqb (method (post BodyInvalid)) (js "OPTIONS") = false /\
      jseqb (method (post BodyInvalid)) (js "POST") = false)
  /\ (status (respond 400 (errorBody "Invalid JSON body")) = 400 <->
      jseqb (method (post BodyInvalid)) (js "POST") = true /\
      validPayload (body (post BodyInvalid)) = false)
  /\ (status (respond 400 (errorBody "Invalid JSON body")) = 500 <->
      jseqb (method (post BodyInvalid)) (js "POST") = true /\
      validPayload (body (post BodyInvalid)) = true /\
      (storeConfigured (scenarioWorld None accepting) = false \/
       exists found m,
         payloadOf (body (post BodyInvalid)) = Some found /\
         selectLost (scenarioWorld None accepting) (fp_category found) None
         = QError m))
  /\ (status (respond 400 (errorBody "Invalid JSON body")) = 200 \/
      status (respond 400 (errorBody "Invalid JSON body")) = 400 \/
      status (respond 400 (errorBody "Invalid JSON body")) = 405 \/
      status (respond 400 (errorBody "Invalid JSON body")) = 500).
Proof.
  apply (inline_status_table (scenarioWorld None accepting) (post BodyInvalid)).
  reflexivity.
Defined.

(** The ways the environment checks of the lookup variant end. *)
Lemma lookup_config_cases w req :
  (jseqb (method req) (js "OPTIONS") = true /\
   NotifyMatches.config w req = inl (respond 200 (BText (js "ok"))))
  \/ (jseqb (method req) (js "OPTIONS") = false /\
      jseqb (method req) (js "POST") = false /\
      NotifyMatches.config w req
        = inl (respond 405 (errorBody "Method not allowed")))
  \/ (jseqb (method req) (js "POST") = true /\ storeConfigured w = false /\
      NotifyMatches.config w req
        = inl (respond 500 (errorBody "Missing Supabase environment config")))
  \/ (jseqb (method req) (js "POST") = true /\ storeConfigured w = true /\
      truthyOpt (RESEND_API_KEY w) = false /\
      NotifyMatches.config w req
        = inl (respond 500 (errorBody "Missing RESEND_API_KEY secret")))
  \/ (jseqb (method req) (js "POST") = true /\ storeConfigured w = true /\
      truthyOpt (RESEND_API_KEY w) = true /\
      exists cfg, NotifyMatches.config w req = inr cfg).
Proof.
  unfold NotifyMatches.config, storeConfigured.
  destruct (jseqb (method req) (js "OPTIONS")) eqn:Eo; [now left|right].
  destruct (jseqb (method req) (js "POST")) eqn:Ep; cbn [negb];
    [right|left; now repeat split].
  destruct (truthyOpt (SUPABASE_URL w)),
    (truthyOpt (SUPABASE_SERVICE_ROLE_KEY w)); cbn [negb orb andb];
    try (left; now repeat split).
  right.
  destruct (truthyOpt (RESEND_API_KEY w)); cbn [negb];
    [right; repeat split; eexists; reflexivity | left; now repeat split].
Qed.

(** The ways the first part of the [try] block ends. *)
Lemma lookup_gather_cases w req :
  (body req = BodyNull /\
   exists m, NotifyMatches.gather w req = inl (respond 500 (BError m None)))
  \/ (body req <> BodyNull /\ foundItemIdOf (body req) = None /\
      NotifyMatches.gather w req
        = inl (respond 400 (errorBody "foundItemId is required")))
  \/ (body req <> BodyNull /\
      exists fid, foundItemIdOf (body req) = Some fid /\
        ((exists m, NotifyMatches.gather w req
                    = inl (respond 500 (BError m None)))
         \/ (exists foundItem lostItems,
               NotifyMatches.gather w req = inr (foundItem, lostItems)))).
Proof.
  unfold NotifyMatches.gather, foundItemIdOf, NotifyMatches.caught.
  destruct (body req) as [| |fi [fid|]].
  - right. left. now repeat split.
  - left. split; [reflexivity | eexists; reflexivity].
  - destruct (truthy fid); cbn [negb].
    + right. right. split; [discriminate|]. exists fid. split; [reflexivity|].
      destruct (selectFoundById w fid) as [m|[f|]];
        try (left; eexists; reflexivity).
      destruct (selectLost w (fr_category f) _) as [m|data];
        [left; eexists; reflexivity | right; do 2 eexists; reflexivity].
    + right. left. now repeat split.
  - right. left. now repeat split.
Qed.

(** X14. Lookup variant: the handler always answers.  OPTIONS gets 200
    "ok".  The status is 405 exactly for methods other than OPTIONS and
    POST; 400 exactly for a POST in a fully configured environment whose
    body is not [null] and names no found item; a POST in an environment
    lacking a store setting or the e-mail credential gets 500 whatever its
    body; and the status is always 200, 400, 405 or 500. *)
Theorem lookup_status_table w req :
  exists r,
    fst (NotifyMatches.handler w req) = Responded r
    /\ (jseqb (method req) (js "OPTIONS") = true ->
        r = respond 200 (BText (js "ok")))
    /\ (status r = 405 <->
        jseqb (method req) (js "OPTIONS") = false /\
        jseqb (method req) (js "POST") = false)
    /\ (status r = 400 <->
        jseqb (method req) (js "POST") = true /\
        storeConfigured w = true /\ truthyOpt (RESEND_API_KEY w) = true /\
        body req <> BodyNull /\ foundItemIdOf (body req) = None)
    /\ (jseqb (method req) (js "POST") = true ->
        storeConfigured w = false \/ truthyOpt (RESEND_API_KEY w) = false ->
        status r = 500)
    /\ (status r = 200 \/ status r = 400 \/ status r = 405 \/ status r = 500).
Proof.
  unfold NotifyMatches.handler.
  destruct (lookup_config_cases w req)
    as [(Ho & ->)|[(Ho & Hp & ->)|[(Hp & Hc & ->)|[(Hp & Hc & Hk & ->)
       |(Hp & Hc & Hk & cfg & ->)]]]];
    try pose proof (post_not_options _ Hp) as Ho.
  - eexists. split; [reflexivity|]. cbn [status respond].
    assert (jseqb (method req) (js "POST") = false) as Hp.
    { destruct (jseqb (method req) (js "POST")) eqn:E; [|reflexivity].
      apply post_not_options in E. congruence. }
    table.
  - eexists. split; [reflexivity|]. cbn [status respond]. table.
  - eexists. split; [reflexivity|]. cbn [status respond]. table.
  - eexists. split; [reflexivity|]. cbn [status respond]. table.
  - destruct (lookup_gather_cases w req)
      as [(Hb & m & ->)|[(Hb & Hi & ->)
         |(Hb & fid & Hi & [(m & ->)|(foundItem & lostItems & ->)])]].
    + eexists. split; [reflexivity|]. cbn [status respond]. table.
    + eexists. split; [reflexivity|]. cbn [status respond]. table.
    + eexists. split; [reflexivity|]. cbn [status respond]. table.
    + destruct (NotifyMatches.resolve w lostItems) as [l calls].
      unfold NotifyMatches.deliver.
      destruct (NotifyMatches.sendAll _ _ _ _ _ _) as [[sent failures] issued].
      eexists. split; [reflexivity|]. cbn [status respond]. table.
Qed.

(** The two variants order their checks differently. *)
Example invalid_body_unconfigured :
  fst (NotifyLostOnFound.handler
         (deployment scenarioTable scenarioAccounts None accepting)
         (post BodyInvalid))
  = Responded (respond 400 (errorBody "Invalid JSON body"))
  /\ fst (NotifyMatches.handler
            (deployment scenarioTable scenarioAccounts None accepting)
            (post BodyInvalid))
     = Responded (respond 500 (errorBody "Missing RESEND_API_KEY secret"))
  /\ fst (NotifyMatches.handler
            (deployment scenarioTable scenarioAccounts (Some (js "re_key"))
               accepting)
            (post BodyInvalid))
     = Responded (respond 400 (errorBody "foundItemId is required")).
Proof. repeat split; reflexivity. Qed.

Lemma lookup_status_table_witness :
  exists r,
    fst (NotifyMatches.handler (scenarioWorld None accepting) lookupRequest)
      = Responded r /\ status r = 500.
Proof.
  destruct (lookup_status_table (scenarioWorld None accepting) lookupRequest)
    as (r & Hr & _ & _ & _ & H500 & _).
  exists r. split; [exact Hr|].
  apply H500; [reflexivity | right; reflexivity].
Defined.

(** ** What the messages contain *)

Lemma includes_optionalItem label v d :
  v = Some d -> truthy d = true ->
  includes d (NotifyLostOnFound.optionalItem label v) = true.
Proof.
  intros -> Ht. unfold NotifyLostOnFound.optionalItem. rewrite Ht. find_part.
Qed.

(** X15. The message index.ts composes names the category in its subject
    and, in its body, the category, the title and, when present and not
    empty, the description and the location of the found item, each
    verbatim. *)
Theorem inline_message_contents (found : FoundItemPayload) :
  includes (fp_category found) (fst (NotifyLostOnFound.composeEmail found)) = true
  /\ includes (fp_category found) (snd (NotifyLostOnFound.composeEmail found)) = true
  /\ includes (fp_title found) (snd (NotifyLostOnFound.composeEmail found)) = true
  /\ (forall d, fp_description found = Some d -> truthy d = true ->
        includes d (snd (NotifyLostOnFound.composeEmail found)) = true)
  /\ (forall l, fp_location found = Some l -> truthy l = true ->
        includes l (snd (NotifyLostOnFound.composeEmail found)) = true).
Proof.
  unfold NotifyLostOnFound.composeEmail, NotifyLostOnFound.subjectOf,
    NotifyLostOnFound.htmlOf, line. cbn [fst snd].
  split; [find_part|]. split; [find_part|]. split; [find_part|].
  split.
  - intros d Hd Ht.
    pose proof (includes_optionalItem "Description" Hd Ht) as Hi.
    revert Hi. generalize (NotifyLostOnFound.optionalItem "Description"
                             (fp_description found)).
    intros part Hi.
    do 6 apply includes_app_r. apply includes_app_l.
    apply includes_app_r. now apply includes_app_l.
  - intros l Hl Ht.
    pose proof (includes_optionalItem "Location" Hl Ht) as Hi.
    revert Hi. generalize (NotifyLostOnFound.optionalItem "Location"
                             (fp_location found)).
    intros part Hi.
    do 7 apply includes_app_r. apply includes_app_l.
    apply includes_app_r. now apply includes_app_l.
Qed.

Lemma inline_message_contents_witness :
  includes (js "Navy blue, front pocket zipper broken")
    (snd (NotifyLostOnFound.composeEmail backpackPayload)) = true
  /\ includes (js "Library")
       (snd (NotifyLostOnFound.composeEmail backpackPayload)) = true.
Proof.
  destruct (inline_message_contents backpackPayload)
    as (_ & _ & _ & Hd & Hl).
  split; [apply Hd | apply Hl]; reflexivity.
Defined.

Lemma includes_optionalPara label v d :
  v = Some d -> truthy d = true ->
  includes d (NotifyMatches.optionalPara label v) = true.
Proof.
  intros -> Ht. unfold NotifyMatches.optionalPara. rewrite Ht. find_part.
Qed.

(** X16. The message notify-matches composes names the category in its
    subject and, in its body, the category, the title (twice when it is not
    empty: in the heading, between typographic quotes, and in its own
    paragraph) and, when present and not empty, the description and the
    location of the found item, each verbatim. *)
Theorem lookup_message_contents (foundItem : FoundItemRow) :
  includes (fr_category foundItem)
    (NotifyMatches.subjectOf (fr_category foundItem)) = true
  /\ includes (fr_category foundItem) (NotifyMatches.htmlOf foundItem) = true
  /\ includes (js "<p><strong>Title:</strong> " ++ fr_title foundItem ++ js "</p>")
       (NotifyMatches.htmlOf foundItem) = true
  /\ (truthy (fr_title foundItem) = true ->
      includes ([8220%N] ++ fr_title foundItem ++ [8221%N])
        (NotifyMatches.htmlOf foundItem) = true)
  /\ (forall d, fr_description foundItem = Some d -> truthy d = true ->
        includes d (NotifyMatches.htmlOf foundItem) = true)
  /\ (forall l, fr_location foundItem = Some l -> truthy l = true ->
        includes l (NotifyMatches.htmlOf foundItem) = true).
Proof.
  unfold NotifyMatches.subjectOf, NotifyMatches.htmlOf, line.
  split; [find_part|]. split; [find_part|]. split; [find_part|].
  split; [|split].
  - intros Ht. unfold NotifyMatches.previewTitle. rewrite Ht. find_part.
  - intros d Hd Ht.
    pose proof (includes_optionalPara "Description" Hd Ht) as Hi.
    revert Hi. generalize (NotifyMatches.optionalPara "Description"
                             (fr_description foundItem)).
    intros part Hi.
    do 5 apply includes_app_r. apply includes_app_l.
    apply includes_app_r. now apply includes_app_l.
  - intros l Hl Ht.
    pose proof (includes_optionalPara "Location" Hl Ht) as Hi.
    revert Hi. generalize (NotifyMatches.optionalPara "Location"
                             (fr_location foundItem)).
    intros part Hi.
    do 6 apply includes_app_r. apply includes_app_l.
    apply includes_app_r. now apply includes_app_l.
Qed.

Lemma lookup_message_contents_witness :
  includes ([8220%N] ++ js "Blue Backpack" ++ [8221%N])
    (NotifyMatches.htmlOf backpackRow) = true
  /\ includes (js "Navy blue, front pocket zipper broken")
       (NotifyMatches.htmlOf backpackRow) = true
  /\ includes (js "Library") (NotifyMatches.htmlOf backpackRow) = true.
Proof.
  destruct (lookup_message_contents backpackRow)
    as (_ & _ & _ & Ht & Hd & Hl).
  split; [apply Ht|split; [apply Hd | apply Hl]]; reflexivity.
Defined.

Lemma includes_listItems l lines :
  In l (skipn 1 lines) -> includes l (Notifications.listItems lines) = true.
Proof.
  unfold Notifications.listItems. generalize (skipn 1 lines).
  intros ls. induction ls as [|x ls IH]; [intros []|].
  intros [->|H]; cbn [map List.concat].
  - apply includes_app_l. find_part.
  - apply includes_app_r. now apply IH.
Qed.

(** X17. The composer of the web client names the category in its subject
    and, in its body, the category, the title and, when present and not
    empty, the description and the location, each verbatim.  For the same
    category its subject is the subject index.ts composes, while the two
    bodies always differ. *)
Theorem client_message_contents (found : Notifications.FoundItemForEmail) :
  includes (Notifications.category found)
    (fst (Notifications.composeFoundMatchEmail found)) = true
  /\ includes (Notifications.category found)
       (snd (Notifications.composeFoundMatchEmail found)) = true
  /\ includes (Notifications.title found)
       (snd (Notifications.composeFoundMatchEmail found)) = true
  /\ (forall d, Notifications.description found = Some d -> truthy d = true ->
        includes d (snd (Notifications.composeFoundMatchEmail found)) = true)
  /\ (forall l, Notifications.location found = Some l -> truthy l = true ->
        includes l (snd (Notifications.composeFoundMatchEmail found)) = true)
  /\ (forall payload,
        fp_category payload = Notifications.category found ->
        fst (NotifyLostOnFound.composeEmail payload)
        = fst (Notifications.composeFoundMatchEmail found) /\
        snd (NotifyLostOnFound.composeEmail payload)
        <> snd (Notifications.composeFoundMatchEmail found)).
Proof.
  assert (forall part,
            includes part (Notifications.listItems (Notifications.linesOf found))
            = true ->
            includes part (snd (Notifications.composeFoundMatchEmail found))
            = true) as Hitems.
  { intros part Hi. unfold Notifications.composeFoundMatchEmail, line.
    cbn [snd].
    revert Hi. generalize (Notifications.listItems (Notifications.linesOf found)).
    intros items Hi.
    do 5 apply includes_app_r. apply includes_app_l.
    apply includes_app_r. now apply includes_app_l. }
  split; [|split; [|split; [|split; [|split]]]].
  - unfold Notifications.composeFoundMatchEmail. cbn [fst]. find_part.
  - unfold Notifications.composeFoundMatchEmail, line. cbn [snd nth].
    unfold Notifications.linesOf. cbn [app nth]. find_part.
  - apply Hitems. unfold Notifications.listItems, Notifications.linesOf.
    cbn [app skipn map List.concat]. find_part.
  - intros d Hd Ht. apply Hitems.
    apply includes_spec.
    destruct (includes_spec (js "Description: " ++ d)
                (Notifications.listItems (Notifications.linesOf found)))
      as [(a & b & E) _].
    { apply includes_listItems. unfold Notifications.linesOf.
      rewrite Hd. simpl truthyOpt. rewrite Ht. simpl. auto. }
    exists (a ++ js "Description: "), b. rewrite E.
    now rewrite <- !app_assoc.
  - intros l Hl Ht. apply Hitems.
    apply includes_spec.
    destruct (includes_spec (js "Location: " ++ l)
                (Notifications.listItems (Notifications.linesOf found)))
      as [(a & b & E) _].
    { apply includes_listItems. unfold Notifications.linesOf.
      rewrite Hl. simpl truthyOpt. rewrite Ht.
      destruct (truthyOpt (Notifications.description found)); simpl; auto. }
    exists (a ++ js "Location: "), b. rewrite E.
    now rewrite <- !app_assoc.
  - intros payload Hc. split.
    + unfold NotifyLostOnFound.composeEmail, NotifyLostOnFound.subjectOf,
        Notifications.composeFoundMatchEmail. cbn [fst]. now rewrite Hc.
    + unfold NotifyLostOnFound.composeEmail, NotifyLostOnFound.htmlOf,
        Notifications.composeFoundMatchEmail. cbn [snd]. intros H.
      do 3 apply app_inv_head in H.
      unfold line, Notifications.linesOf in H. cbn [app nth] in H.
      rewrite <- !app_assoc in H. apply app_inv_head in H.
      simpl in H. discriminate H.
Qed.

Lemma client_message_contents_witness :
  includes (js "Navy blue, front pocket zipper broken")
    (snd (Notifications.composeFoundMatchEmail backpack)) = true
  /\ includes (js "Library")
       (snd (Notifications.composeFoundMatchEmail backpack)) = true
  /\ (fst (NotifyLostOnFound.composeEmail backpackPayload)
      = fst (Notifications.composeFoundMatchEmail backpack) /\
      snd (NotifyLostOnFound.composeEmail backpackPayload)
      <> snd (Notifications.composeFoundMatchEmail backpack)).
Proof.
  destruct (client_message_contents backpack) as (_ & _ & _ & Hd & Hl & Hp).
  split; [apply Hd; reflexivity|].
  split; [apply Hl; reflexivity|]. apply Hp. reflexivity.
Defined.

(** The assertions of the client's test. *)
Example client_test :
  includes (js "Bags & Backpacks")
    (fst (Notifications.composeFoundMatchEmail backpack)) = true
  /\ includes (js "Blue Backpack")
       (snd (Notifications.composeFoundMatchEmail backpack)) = true
  /\ includes (js "Library")
       (snd (Notifications.composeFoundMatchEmail backpack)) = true.
Proof. repeat split; reflexivity. Qed.

(** ** Store failures *)

(** X18. A failing store query ends the request with a 500 that carries the
    store's own message, before any lookup or delivery: index.ts puts it in
    [details] next to a fixed [error] text; notify-matches returns it as
    [error], for the found-item query (which also fails when the identifier
    matches no single row) and for the lost-item query alike. *)
Theorem store_errors_surface :
  (forall w req found m,
     jseqb (method req) (js "POST") = true ->
     payloadOf (body req) = Some found ->
     validPayload (body req) = true -> storeConfigured w = true ->
     selectLost w (fp_category found) None = QError m ->
     NotifyLostOnFound.handler w req
     = (Responded (respond 500
          (BError (js "Failed querying lost items") (Some m))), noCalls))
  /\
  (forall w req cfg fid m,
     NotifyMatches.config w req = inr cfg ->
     foundItemIdOf (body req) = Some fid ->
     selectFoundById w fid = QError m ->
     NotifyMatches.handler w req
     = (Responded (respond 500 (BError m None)), noCalls))
  /\
  (forall w req cfg fid foundItem m,
     NotifyMatches.config w req = inr cfg ->
     foundItemIdOf (body req) = Some fid ->
     selectFoundById w fid = QData (Some foundItem) ->
     selectLost w (fr_category foundItem)
       (if truthy (fr_user_id foundItem) then Some (fr_user_id foundItem)
        else None) = QError m ->
     NotifyMatches.handler w req
     = (Responded (respond 500 (BError m None)), noCalls)).
Proof.
  split; [|split].
  - intros w req found m Hp Hf Hv Hc Hq.
    unfold NotifyLostOnFound.handler.
    destruct (inline_validate_cases w req)
      as [(Ho & _)|[(_ & Hp' & _)|[(_ & Hv' & _)|[(_ & _ & Hc' & _)
         |(_ & _ & _ & found' & Hf' & [(m' & Hq' & ->)|(data & Hq' & _)])]]]];
      try congruence;
      try (apply post_not_options in Hp; congruence);
      rewrite Hf in Hf'; injection Hf' as <-; rewrite Hq in Hq';
      try discriminate Hq'; now injection Hq' as <-.
  - intros w req cfg fid m Hc Hi Hq. unfold NotifyMatches.handler.
    rewrite Hc. unfold NotifyMatches.gather. unfold foundItemIdOf in Hi.
    destruct (body req) as [| |fi [fid'|]]; try discriminate.
    destruct (truthy fid'); [|discriminate]. injection Hi as ->.
    cbn [negb]. now rewrite Hq.
  - intros w req cfg fid foundItem m Hc Hi Hf Hq.
    unfold NotifyMatches.handler.
    rewrite Hc. unfold NotifyMatches.gather. unfold foundItemIdOf in Hi.
    destruct (body req) as [| |fi [fid'|]]; try discriminate.
    destruct (truthy fid'); [|discriminate]. injection Hi as ->.
    cbn [negb]. rewrite Hf. cbv zeta. now rewrite Hq.
Qed.

Lemma store_errors_surface_witness :
  NotifyLostOnFound.handler brokenStoreWorld inlineRequest
  = (Responded (respond 500
       (BError (js "Failed querying lost items")
          (Some (js "upstream timeout")))), noCalls)
  /\
  NotifyMatches.handler brokenStoreWorld lookupRequest
  = (Responded (respond 500 (BError (js "upstream timeout") None)), noCalls)
  /\
  NotifyMatches.handler
    (deployment scenarioTable scenarioAccounts (Some (js "re_key")) accepting)
    (post (BodyObject None (Some (js "no-such-item"))))
  = (Responded (respond 500
       (BError (js "JSON object requested, multiple (or no) rows returned")
          None)), noCalls).
Proof.
  split; [|split].
  - apply (proj1 store_errors_surface brokenStoreWorld inlineRequest
             scenarioFound); reflexivity.
  - apply (proj1 (proj2 store_errors_surface) brokenStoreWorld lookupRequest
             {| NotifyMatches.cfg_key := js "re_key";
                NotifyMatches.cfg_from :=
                  js "Campus Finder <no-reply@yourapp.example>" |}
             (js "f1")); reflexivity.
  - apply (proj1 (proj2 store_errors_surface)
             (deployment scenarioTable scenarioAccounts (Some (js "re_key"))
                accepting)
             (post (BodyObject None (Some (js "no-such-item"))))
             {| NotifyMatches.cfg_key := js "re_key";
                NotifyMatches.cfg_from :=
                  js "Campus Finder <no-reply@yourapp.example>" |}
             (js "no-such-item")); reflexivity.
Defined.

(** A contact with an "@" and inner white space: the lookup variant writes
    to it as it is, the inline variant asks the account service instead. *)
Example loose_contact :
  fst (NotifyMatches.resolve (scenarioWorld None accepting)
         [ {| li_id := js "l9"; li_title := js "Keys";
              li_contact_info := Some (js " desk 4 @ library ");
              li_user_id := js "u3" |} ])
  = [js "desk 4 @ library"]
  /\ fst (NotifyLostOnFound.resolve (scenarioWorld None accepting)
            scenarioFound
            [ {| li_id := js "l9"; li_title := js "Keys";
                 li_contact_info := Some (js " desk 4 @ library ");
                 li_user_id := js "u3" |} ])
     = [js "c@d.com"].
Proof. split; reflexivity. Qed.

(** ** Every resolved address, once *)

Lemma lookup_fold_keeps w lostItems st a :
  In a (fst st) -> In a (fst (fold_left (NotifyMatches.step w) lostItems st)).
Proof.
  revert st. induction lostItems as [|x l IH]; intros st H; simpl;
    [assumption|].
  apply IH. now apply lookup_step_keeps.
Qed.

Lemma addLookup_adds r rs a :
  r = LookupUser (Some a) -> truthy a = true ->
  In a (NotifyLostOnFound.addLookup r rs).
Proof. intros -> Ht. simpl. rewrite Ht. apply setAdd_In. now left. Qed.

(** Inline variant: the address the [i]-th lookup returned is a recipient. *)
Lemma inline_lookupAll_answers w uids rs calls i u a :
  nth_error (calls ++ uids) i = Some u -> List.length calls <= i ->
  getUserById w i u = LookupUser (Some a) -> truthy a = true ->
  In a (fst (NotifyLostOnFound.lookupAll w uids rs calls)).
Proof.
  revert rs calls. induction uids as [|x rest IH]; intros rs calls Hn Hi Hg Ht.
  - rewrite app_nil_r in Hn. apply nth_error_None in Hi. congruence.
  - simpl. destruct (Nat.eq_dec i (List.length calls)) as [->|Hne].
    + rewrite nth_error_app2, Nat.sub_diag in Hn by lia.
      injection Hn as ->. apply inline_lookupAll_keeps.
      now apply addLookup_adds.
    + apply IH; try assumption.
      * now rewrite <- app_assoc.
      * rewrite length_app. simpl. lia.
Qed.

(** Lookup variant: the address the [i]-th lookup returned is a recipient. *)
Lemma lookup_fold_answers w lostItems s calls i u a :
  nth_error (snd (fold_left (NotifyMatches.step w) lostItems (s, calls))) i
    = Some u ->
  List.length calls <= i ->
  getUserById w i u = LookupUser (Some a) -> truthy a = true ->
  In a (fst (fold_left (NotifyMatches.step w) lostItems (s, calls))).
Proof.
  revert s calls. induction lostItems as [|x l IH]; intros s calls Hn Hi Hg Ht.
  - simpl in Hn. apply nth_error_None in Hi. congruence.
  - simpl in *.
    replace (NotifyMatches.step w (s, calls) x)
      with (if NotifyMatches.hasAt (li_contact_info x)
            then (setAdd (trim (stringOf (li_contact_info x))) s, calls)
            else if truthy (li_user_id x)
            then (NotifyMatches.addLookup
                    (getUserById w (List.length calls) (li_user_id x)) s,
                  calls ++ [li_user_id x])
            else (s, calls)) in * by reflexivity.
    destruct (NotifyMatches.hasAt (li_contact_info x)); [now apply IH|].
    destruct (truthy (li_user_id x)); [|now apply IH].
    destruct (Nat.eq_dec i (List.length calls)) as [->|Hne].
    + rewrite (proj1 (lookup_step_fold w l _ _)) in Hn.
      rewrite <- app_assoc, nth_error_app2, Nat.sub_diag in Hn by lia.
      injection Hn as <-. apply lookup_fold_keeps. cbn [fst].
      rewrite lookup_addLookup_same. now apply addLookup_adds.
    + apply IH; try assumption. rewrite length_app. simpl. lia.
Qed.

Lemma inline_handler_lookups w req found lostItems :
  NotifyLostOnFound.validate w req = inr (found, lostItems) ->
  lookups (snd (NotifyLostOnFound.handler w req))
  = snd (NotifyLostOnFound.resolve w found lostItems).
Proof.
  intros Hv. unfold NotifyLostOnFound.handler. rewrite Hv.
  destruct (NotifyLostOnFound.resolve w found lostItems) as [l calls].
  now destruct (NotifyLostOnFound.deliver w found l).
Qed.

Lemma lookup_handler_lookups w req cfg foundItem lostItems :
  NotifyMatches.config w req = inr cfg ->
  NotifyMatches.gather w req = inr (foundItem, lostItems) ->
  lookups (snd (NotifyMatches.handler w req))
  = snd (NotifyMatches.resolve w lostItems).
Proof.
  intros Hc Hg. unfold NotifyMatches.handler. rewrite Hc, Hg.
  destruct (NotifyMatches.resolve w lostItems) as [l calls].
  now destruct (NotifyMatches.deliver w cfg foundItem l).
Qed.

(** What a variant dispatches to once it resolved [l]. *)
Lemma resolved_dispatched v w req l :
  resolvedBy v w req = Some l ->
  dispatchedTo (snd (serve v w req)) = if dispatches v w then l else [].
Proof.
  destruct v; simpl; intros H.
  - now apply inline_dispatched.
  - now apply lookup_dispatched.
Qed.

(** The trimmed contact of every candidate whose contact is used directly
    is resolved. *)
Lemma resolved_holds_contacts v w req l :
  resolvedBy v w req = Some l ->
  exists rows,
    candidatesOf v w req = Some rows /\
    forall it, In it rows -> usedDirectly v (li_contact_info it) = true ->
               In (trim (stringOf (li_contact_info it))) l.
Proof.
  destruct v; simpl; intros H.
  - apply inline_resolved_inv in H as (found & lostItems & calls & Hv & Hr).
    rewrite Hv. eexists. split; [reflexivity|].
    intros it Hin Hd. apply filter_In in Hin as [Hin Hn].
    pose proof (inline_resolve_direct w found lostItems it Hin Hn Hd) as Hi.
    now rewrite Hr in Hi.
  - apply lookup_resolved_inv in H
      as (cfg & foundItem & lostItems & calls & Hc & Hg & Hr).
    rewrite Hc, Hg. eexists. split; [reflexivity|].
    intros it Hin Hd.
    pose proof (lookup_resolve_direct w lostItems it Hin Hd) as Hi.
    now rewrite Hr in Hi.
Qed.

(** Every non-empty address a lookup of the request returned is resolved. *)
Lemma resolved_holds_answers v w req l i u a :
  resolvedBy v w req = Some l ->
  nth_error (lookups (snd (serve v w req))) i = Some u ->
  getUserById w i u = LookupUser (Some a) -> truthy a = true ->
  In a l.
Proof.
  destruct v; simpl; intros H Hn Hg Ht.
  - apply inline_resolved_inv in H as (found & lostItems & calls & Hv & Hr).
    rewrite (inline_handler_lookups _ _ Hv) in Hn.
    unfold NotifyLostOnFound.resolve in *.
    destruct (NotifyLostOnFound.collect found lostItems) as [rs ms].
    rewrite inline_lookupAll_calls in Hn.
    pose proof (@inline_lookupAll_answers w ms rs [] i u a Hn) as Hi.
    rewrite Hr in Hi. apply Hi; [simpl; lia | assumption | assumption].
  - apply lookup_resolved_inv in H
      as (cfg & foundItem & lostItems & calls & Hc & Hg' & Hr).
    rewrite (lookup_handler_lookups _ _ Hc Hg') in Hn.
    unfold NotifyMatches.resolve in *.
    pose proof (@lookup_fold_answers w lostItems [] [] i u a Hn) as Hi.
    rewrite Hr in Hi. apply Hi; [simpl; lia | assumption | assumption].
Qed.

(** C6, as stated, fails on the inline variant: without the e-mail
    credential the address the three candidates of [sharedTable] resolve
    to is resolved, and dispatched to by nobody. *)
Lemma C6_recipients_unique_counterexample : ~ dispatchedExactlyOnce Inline.
Proof.
  intros H.
  specialize (H sharedKeylessWorld inlineRequest [js "a@b.com"] (js "a@b.com")
                eq_refl (or_introl eq_refl)).
  vm_compute in H. discriminate H.
Qed.

(** C6 (amended). The addresses dispatched to never repeat.  When a request
    resolves the recipient list [l]: [l] holds no duplicate; it holds the
    trimmed contact of every candidate whose contact is used directly and
    every non-empty address an account lookup of the request returned, so
    an address several candidates resolve to is in [l] exactly once; the
    lookup variant, and the inline variant when the credential is set,
    dispatch to [l] itself, each address exactly once; the inline variant
    without the credential dispatches to nobody. *)
Theorem C6_recipients_unique (v : Variant) (w : World) (req : Request) :
  NoDup (dispatchedTo (snd (serve v w req))) /\
  (forall l, resolvedBy v w req = Some l ->
     NoDup l /\
     dispatchedTo (snd (serve v w req)) = (if dispatches v w then l else []) /\
     (exists rows,
        candidatesOf v w req = Some rows /\
        forall it, In it rows -> usedDirectly v (li_contact_info it) = true ->
                   In (trim (stringOf (li_contact_info it))) l) /\
     (forall i u a,
        nth_error (lookups (snd (serve v w req))) i = Some u ->
        getUserById w i u = LookupUser (Some a) -> truthy a = true ->
        In a l) /\
     (forall a, In a l ->
        count_occ (list_eq_dec N.eq_dec) l a = 1 /\
        count_occ (list_eq_dec N.eq_dec)
          (dispatchedTo (snd (serve v w req))) a
        = if dispatches v w then 1 else 0)).
Proof.
  split.
  - destruct (resolvedBy v w req) as [l|] eqn:E.
    + rewrite (resolved_dispatched _ _ _ E).
      destruct (dispatches v w);
        [exact (resolved_NoDup v w req E) | constructor].
    + rewrite (unresolved_no_dispatch _ _ _ E). constructor.
  - intros l H. pose proof (resolved_NoDup v w req H) as Hnd.
    split; [exact Hnd|].
    split; [now apply resolved_dispatched|].
    split; [now apply resolved_holds_contacts|].
    split; [intros i u a; now apply resolved_holds_answers|].
    intros a Ha.
    assert (count_occ (list_eq_dec N.eq_dec) l a = 1) as Hc
      by (apply NoDup_count_occ'; assumption).
    split; [exact Hc|].
    rewrite (resolved_dispatched _ _ _ H).
    destruct (dispatches v w); [exact Hc | reflexivity].
Qed.

Lemma C6_recipients_unique_witness :
  (In (js "a@b.com") [js "a@b.com"] /\
   count_occ (list_eq_dec N.eq_dec)
     (dispatchedTo (snd (serve Inline sharedWorld inlineRequest)))
     (js "a@b.com") = 1)
  /\
  (In (js "a@b.com") [js "a@b.com"] /\
   count_occ (list_eq_dec N.eq_dec)
     (dispatchedTo (snd (serve Lookup sharedWorld lookupRequest)))
     (js "a@b.com") = 1)
  /\
  count_occ (list_eq_dec N.eq_dec)
    (dispatchedTo (snd (serve Inline sharedKeylessWorld inlineRequest)))
    (js "a@b.com") = 0.
Proof.
  split; [|split].
  - destruct (proj2 (C6_recipients_unique Inline sharedWorld inlineRequest)
                [js "a@b.com"] eq_refl) as (_ & _ & _ & Hans & Hcount).
    split.
    + apply (Hans 0 (js "u3") (js "a@b.com")); reflexivity.
    + exact (proj2 (Hcount (js "a@b.com") (or_introl eq_refl))).
  - destruct (proj2 (C6_recipients_unique Lookup sharedWorld lookupRequest)
                [js "a@b.com"] eq_refl) as (_ & _ & _ & Hans & Hcount).
    split.
    + apply (Hans 0 (js "u3") (js "a@b.com")); reflexivity.
    + exact (proj2 (Hcount (js "a@b.com") (or_introl eq_refl))).
  - destruct (proj2 (C6_recipients_unique Inline sharedKeylessWorld
                       inlineRequest)
                [js "a@b.com"] eq_refl) as (_ & _ & _ & _ & Hcount).
    exact (proj2 (Hcount (js "a@b.com") (or_introl eq_refl))).
Defined.
